(** * LsifTools: the in-memory LSIF graph database

    A shallow embedding of [JsonDatabase] (the graph store, its ingestion
    of vertex and edge records, position resolution, result-path
    resolution and the four queries built on them), followed by the
    properties of it that the design document states.

    JavaScript [Map]s are only read with [get] and written with [set] in
    this class, never iterated, so they are finite maps ([gmap]); arrays
    are lists, and an array stored in a map and extended with [push] is a
    map entry replaced by the extended list.  Vertex objects are mutated
    only while they are ingested (the normalised uri of a document, the
    key of a moniker), before any edge can mention them, so every copy of
    a vertex kept in an index holds the same value as the object it stands
    for. *)

From Stdlib Require Import ZArith String List Bool Lia.
From stdpp Require Import base tactics option list strings pretty gmap.

Set Default Proof Using "Type".

(** ** Protocol vocabulary

    The enumerations of the exchange format come from the protocol
    package the source imports.  Each one lists the members the source
    names; [unlisted] stands for any other label found in a record. *)

Abbreviation Id := Z (only parsing).

Module MonikerKind.
Inductive t := import | export | local.
#[global] Instance eq_dec : EqDecision t.
Proof. solve_decision. Defined.
End MonikerKind.

Module VertexLabels.
(** Labels of the vertices that carry no field the database reads apart
    from [id] and [label].  The four structured kinds (metaData,
    document, range, moniker) are constructors of [Vertex] itself. *)
Inductive t :=
| project
| packageInformation
| resultSet
| documentSymbolResult
| foldingRangeResult
| documentLinkResult
| diagnosticResult
| declarationResult
| definitionResult
| typeDefinitionResult
| hoverResult
| referenceResult
| implementationResult
| unlisted (name : string).
#[global] Instance eq_dec : EqDecision t.
Proof. solve_decision. Defined.
End VertexLabels.

Module EdgeLabels.
Inductive t :=
| contains
| item
| next
| moniker
| textDocument_documentSymbol
| textDocument_foldingRange
| textDocument_documentLink
| textDocument_diagnostic
| textDocument_definition
| textDocument_declaration
| textDocument_typeDefinition
| textDocument_hover
| textDocument_references
| textDocument_implementation
| unlisted (name : string).
#[global] Instance eq_dec : EqDecision t.
Proof. solve_decision. Defined.
End EdgeLabels.

Module ItemEdgeProperties.
Inductive t :=
| declarations
| definitions
| references
| referenceResults
| referenceLinks
| unlisted (name : string).
#[global] Instance eq_dec : EqDecision t.
Proof. solve_decision. Defined.
End ItemEdgeProperties.

(** ** Positions, ranges and locations ([types.Position], [types.Range],
    [types.Location]) *)

Record Position := { line : Z; character : Z }.

Record Span := { start : Position; end_ : Position }.

(** A location built by [types.Location.create] has a uri; a value
    that the library merely takes for a location may have none. *)
Record Location := { uri : option string; range : Span }.

#[export] Instance Position_eq_dec : EqDecision Position.
Proof. solve_decision. Defined.
#[export] Instance Span_eq_dec : EqDecision Span.
Proof. solve_decision. Defined.
#[export] Instance Location_eq_dec : EqDecision Location.
Proof. solve_decision. Defined.

(** ** Vertices and edges *)

Inductive Vertex :=
| MetaData (id : Id) (projectRoot : option string)
| Document (id : Id) (uri : string) (contents : option string)
| Range (id : Id) (start end_ : Position)
| Moniker (id : Id) (scheme identifier : string)
          (kind : option MonikerKind.t) (key : option string)
| Plain (id : Id) (label : VertexLabels.t).

#[export] Instance Vertex_eq_dec : EqDecision Vertex.
Proof. solve_decision. Defined.

Definition vertex_id (v : Vertex) : Id :=
  match v with
  | MetaData id _ | Document id _ _ | Range id _ _
  | Moniker id _ _ _ _ | Plain id _ => id
  end.

(** [item.label === VertexLabels.range] *)
Definition is_range (v : Vertex) : bool :=
  match v with Range _ _ _ => true | _ => false end.

(** The fields of a vertex read through an unchecked cast: [undefined]
    when the object has no such field. *)
Definition vertex_key (v : Vertex) : option string :=
  match v with Moniker _ _ _ _ key => key | _ => None end.

Definition vertex_kind (v : Vertex) : option MonikerKind.t :=
  match v with Moniker _ _ _ kind _ => kind | _ => None end.

Definition vertex_identifier (v : Vertex) : option string :=
  match v with Moniker _ _ identifier _ _ => Some identifier | _ => None end.

Definition vertex_uri (v : Vertex) : option string :=
  match v with Document _ uri _ => Some uri | _ => None end.

Definition vertex_span (v : Vertex) : option Span :=
  match v with
  | Range _ s e => Some {| start := s; end_ := e |}
  | _ => None
  end.

(** [Edge.is11] holds of a record with an [inV], [Edge.is1N] of one with
    an array of [inVs]; [shapeless] is a record with neither. *)
Inductive Edge :=
| E11 (label : EdgeLabels.t) (outV inV : Id)
      (property : option ItemEdgeProperties.t)
| E1N (label : EdgeLabels.t) (outV : Id) (inVs : list Id)
      (property : option ItemEdgeProperties.t)
| shapeless (label : EdgeLabels.t).

(** One parsed line of a dump; [foreign] is a record whose [type] is
    neither vertex nor edge. *)
Inductive Element :=
| vertex (v : Vertex)
| edge (e : Edge)
| foreign.

Inductive ItemTarget :=
| bare (to : Vertex)
| tagged_declarations (range : Vertex)
| tagged_definitions (range : Vertex)
| tagged_references (range : Vertex)
| tagged_referenceResults (result : Vertex)
| tagged_referenceLinks (result : Vertex).

(** ** Outcomes

    A call returns, throws, or is cut off by the step budget of the
    embedding (the only unbounded loops are the walk along [next] edges
    and the descent into nested reference results).  [OutsideEmbedding]
    stands for a call that hands [undefined] to the uri library, of which
    nothing is modelled. *)

Inductive Thrown :=
| UnexpectedElementType
| UnexpectedVertexLabel (label : VertexLabels.t)
| MultipleWorkspaceRoots
| NoVertexFound (id : Id)
| TypeError
| OutsideEmbedding.

Inductive outcome (A : Type) :=
| Ret (a : A)
| Throw (e : Thrown)
| OutOfFuel.
Arguments Ret {A} a.
Arguments Throw {A} e.
Arguments OutOfFuel {A}.

#[export] Instance outcome_ret : MRet outcome := fun A a => Ret a.
#[export] Instance outcome_bind : MBind outcome := fun A B f m =>
  match m with
  | Ret a => f a
  | Throw e => Throw e
  | OutOfFuel => OutOfFuel
  end.

(** [for (const x of xs) body], with the state threaded through. *)
Fixpoint for_of {S A : Type} (xs : list A) (body : S → A → outcome S)
    (s : S) : outcome S :=
  match xs with
  | [] => Ret s
  | x :: xs' => s' ← body s x; for_of xs' body s'
  end.

(** ** The store *)

Record Vertices := {
  vertices_all : gmap Id Vertex;
  vertices_projects : gmap Id Vertex;
  vertices_documents : gmap Id Vertex;
  vertices_ranges : gmap Id Vertex
}.

Record Out := {
  out_contains : gmap Id (list Vertex);
  out_item : gmap Id (list ItemTarget);
  out_next : gmap Id Vertex;
  out_moniker : gmap Id Vertex;
  out_documentSymbol : gmap Id Vertex;
  out_foldingRange : gmap Id Vertex;
  out_documentLink : gmap Id Vertex;
  out_diagnostic : gmap Id Vertex;
  out_declaration : gmap Id Vertex;
  out_definition : gmap Id Vertex;
  out_typeDefinition : gmap Id Vertex;
  out_hover : gmap Id Vertex;
  out_references : gmap Id Vertex;
  out_implementation : gmap Id Vertex
}.

Record In := {
  in_contains : gmap Id Vertex;
  in_moniker : gmap Id (list Vertex)
}.

Record DocumentBucket := { hash : string; documents : list Vertex }.

Record Indices := {
  indices_monikers : gmap string (list Vertex);
  indices_contents : gmap string string;
  indices_documents : gmap string DocumentBucket
}.

Record JsonDatabase := {
  workspaceRoot : option string;
  vertices : Vertices;
  out : Out;
  in_ : In;
  indices : Indices
}.

Definition empty_database : JsonDatabase :=
  {| workspaceRoot := None;
     vertices := Build_Vertices ∅ ∅ ∅ ∅;
     out := Build_Out ∅ ∅ ∅ ∅ ∅ ∅ ∅ ∅ ∅ ∅ ∅ ∅ ∅ ∅;
     in_ := Build_In ∅ ∅;
     indices := Build_Indices ∅ ∅ ∅ |}.

(** Field updates. *)
Definition set_vertices_all (m : gmap Id Vertex) (v : Vertices) : Vertices :=
  let 'Build_Vertices _ b c d := v in Build_Vertices m b c d.
Definition set_vertices_documents (m : gmap Id Vertex) (v : Vertices) : Vertices :=
  let 'Build_Vertices a b _ d := v in Build_Vertices a b m d.
Definition set_vertices_ranges (m : gmap Id Vertex) (v : Vertices) : Vertices :=
  let 'Build_Vertices a b c _ := v in Build_Vertices a b c m.

Definition set_out_contains (m : gmap Id (list Vertex)) (o : Out) : Out :=
  let 'Build_Out _ b c d e f g h i j k l n p := o in
  Build_Out m b c d e f g h i j k l n p.
Definition set_out_item (m : gmap Id (list ItemTarget)) (o : Out) : Out :=
  let 'Build_Out a _ c d e f g h i j k l n p := o in
  Build_Out a m c d e f g h i j k l n p.
Definition set_out_next (m : gmap Id Vertex) (o : Out) : Out :=
  let 'Build_Out a b _ d e f g h i j k l n p := o in
  Build_Out a b m d e f g h i j k l n p.
Definition set_out_moniker (m : gmap Id Vertex) (o : Out) : Out :=
  let 'Build_Out a b c _ e f g h i j k l n p := o in
  Build_Out a b c m e f g h i j k l n p.
Definition set_out_documentSymbol (m : gmap Id Vertex) (o : Out) : Out :=
  let 'Build_Out a b c d _ f g h i j k l n p := o in
  Build_Out a b c d m f g h i j k l n p.
Definition set_out_foldingRange (m : gmap Id Vertex) (o : Out) : Out :=
  let 'Build_Out a b c d e _ g h i j k l n p := o in
  Build_Out a b c d e m g h i j k l n p.
Definition set_out_documentLink (m : gmap Id Vertex) (o : Out) : Out :=
  let 'Build_Out a b c d e f _ h i j k l n p := o in
  Build_Out a b c d e f m h i j k l n p.
Definition set_out_diagnostic (m : gmap Id Vertex) (o : Out) : Out :=
  let 'Build_Out a b c d e f g _ i j k l n p := o in
  Build_Out a b c d e f g m i j k l n p.
Definition set_out_definition (m : gmap Id Vertex) (o : Out) : Out :=
  let 'Build_Out a b c d e f g h i _ k l n p := o in
  Build_Out a b c d e f g h i m k l n p.
Definition set_out_typeDefinition (m : gmap Id Vertex) (o : Out) : Out :=
  let 'Build_Out a b c d e f g h i j _ l n p := o in
  Build_Out a b c d e f g h i j m l n p.
Definition set_out_hover (m : gmap Id Vertex) (o : Out) : Out :=
  let 'Build_Out a b c d e f g h i j k _ n p := o in
  Build_Out a b c d e f g h i j k m n p.
Definition set_out_references (m : gmap Id Vertex) (o : Out) : Out :=
  let 'Build_Out a b c d e f g h i j k l _ p := o in
  Build_Out a b c d e f g h i j k l m p.

Definition set_in_contains (m : gmap Id Vertex) (i : In) : In :=
  let 'Build_In _ b := i in Build_In m b.
Definition set_in_moniker (m : gmap Id (list Vertex)) (i : In) : In :=
  let 'Build_In a _ := i in Build_In a m.

Definition set_indices_monikers (m : gmap string (list Vertex)) (x : Indices) : Indices :=
  let 'Build_Indices _ b c := x in Build_Indices m b c.
Definition set_indices_contents (m : gmap string string) (x : Indices) : Indices :=
  let 'Build_Indices a _ c := x in Build_Indices a m c.
Definition set_indices_documents (m : gmap string DocumentBucket) (x : Indices) : Indices :=
  let 'Build_Indices a b _ := x in Build_Indices a b m.

Definition with_workspaceRoot (r : option string) (db : JsonDatabase) : JsonDatabase :=
  let 'Build_JsonDatabase _ v o i x := db in Build_JsonDatabase r v o i x.
Definition with_vertices (f : Vertices → Vertices) (db : JsonDatabase) : JsonDatabase :=
  let 'Build_JsonDatabase r v o i x := db in Build_JsonDatabase r (f v) o i x.
Definition with_out (f : Out → Out) (db : JsonDatabase) : JsonDatabase :=
  let 'Build_JsonDatabase r v o i x := db in Build_JsonDatabase r v (f o) i x.
Definition with_in (f : In → In) (db : JsonDatabase) : JsonDatabase :=
  let 'Build_JsonDatabase r v o i x := db in Build_JsonDatabase r v o (f i) x.
Definition with_indices (f : Indices → Indices) (db : JsonDatabase) : JsonDatabase :=
  let 'Build_JsonDatabase r v o i x := db in Build_JsonDatabase r v o i (f x).

(** ** The database, over its collaborators

    Four functions of libraries outside the repository are parameters:
    the MD5 digest in base64, [JSON.stringify] on the two small objects
    the class serialises, the uri normalisation
    [URI.parse(uri).toString(true)], and [types.Range.is] on a vertex of
    the store.  Nothing is assumed of them. *)

Inductive JsonValue :=
| JsonString (s : string)
| JsonNumber (z : Z).

(** ** Sample dumps

    Stand-ins for the four collaborators, with which the database runs
    on the sample dumps below: a digest that is the text itself, a
    serialiser that writes the fields in order, uris that are written in
    normal form already, and a range test that accepts the range
    vertices. *)

Definition plain_digest (s : string) : string := s.

Definition plain_stringify (fields : list (string * JsonValue)) : string :=
  foldr (λ field text,
           fst field ++ ":" ++
           match snd field with
           | JsonString s => s
           | JsonNumber z => pretty z
           end ++ ";" ++ text)%string
        EmptyString fields.

Definition plain_normalize (uri : string) : string := uri.

Definition plain_range_is (v : Vertex) : bool := is_range v.

Definition at_ (line character : Z) : Position :=
  {| line := line; character := character |}.

(** One document in which a symbol is defined at line 0 and used at line
    1.  Both ranges share a result set, which carries the export moniker,
    the definition result and the reference result. *)
Definition symbol_dump : list Element :=
  [ vertex (MetaData 0 (Some "file:///"));
    vertex (Document 1 "file:///a.ts" None);
    vertex (Range 2 (at_ 0 0) (at_ 0 3));
    vertex (Range 3 (at_ 1 0) (at_ 1 3));
    vertex (Plain 4 VertexLabels.resultSet);
    vertex (Moniker 5 "scip" "pkg/foo." (Some MonikerKind.export) None);
    vertex (Plain 6 VertexLabels.definitionResult);
    vertex (Plain 7 VertexLabels.referenceResult);
    edge (E1N EdgeLabels.contains 1 [2; 3]%Z None);
    edge (E11 EdgeLabels.next 2 4 None);
    edge (E11 EdgeLabels.next 3 4 None);
    edge (E11 EdgeLabels.moniker 4 5 None);
    edge (E11 EdgeLabels.textDocument_definition 4 6 None);
    edge (E1N EdgeLabels.item 6 [2]%Z None);
    edge (E11 EdgeLabels.textDocument_references 4 7 None);
    edge (E1N EdgeLabels.item 7 [2]%Z (Some ItemEdgeProperties.definitions));
    edge (E1N EdgeLabels.item 7 [3]%Z (Some ItemEdgeProperties.references)) ].

(** The same symbol, defined and never used. *)
Definition unused_dump : list Element :=
  [ vertex (Document 1 "file:///a.ts" None);
    vertex (Range 2 (at_ 0 0) (at_ 0 3));
    vertex (Plain 4 VertexLabels.resultSet);
    vertex (Moniker 5 "scip" "pkg/foo." (Some MonikerKind.export) None);
    vertex (Plain 6 VertexLabels.definitionResult);
    vertex (Plain 7 VertexLabels.referenceResult);
    edge (E1N EdgeLabels.contains 1 [2]%Z None);
    edge (E11 EdgeLabels.next 2 4 None);
    edge (E11 EdgeLabels.moniker 4 5 None);
    edge (E11 EdgeLabels.textDocument_definition 4 6 None);
    edge (E1N EdgeLabels.item 6 [2]%Z None);
    edge (E11 EdgeLabels.textDocument_references 4 7 None);
    edge (E1N EdgeLabels.item 7 [2]%Z (Some ItemEdgeProperties.definitions)) ].

(** The symbol dump followed by a second moniker, to which the reference
    result links. *)
Definition linked_dump : list Element :=
  symbol_dump
  ++ [ vertex (Moniker 8 "scip" "pkg/bar." (Some MonikerKind.import) None);
       edge (E1N EdgeLabels.item 7 [8]%Z (Some ItemEdgeProperties.referenceLinks)) ].


(** The same, with a declaration edge from the result set. *)
Definition declaration_dump : list Element :=
  symbol_dump ++ [edge (E11 EdgeLabels.textDocument_declaration 4 6 None)].

Definition definition_site : Location :=
  {| uri := Some "file:///a.ts";
     range := {| start := at_ 0 0; end_ := at_ 0 3 |} |}.


(** Two vertices, and then an edge with a label the database does not
    know. *)
Definition two_result_sets : list Element :=
  [ vertex (Plain 1 VertexLabels.resultSet);
    vertex (Plain 2 VertexLabels.resultSet) ].


(** One document with three ranges on line 0: characters 0 to 10, 5 to
    20, and 6 to 15.  The third lies within the second; the first
    overlaps both and contains neither. *)
Definition overlap_dump : list Element :=
  [ vertex (Document 1 "file:///a.ts" None);
    vertex (Range 2 (at_ 0 0) (at_ 0 10));
    vertex (Range 3 (at_ 0 5) (at_ 0 20));
    vertex (Range 4 (at_ 0 6) (at_ 0 15));
    edge (E1N EdgeLabels.contains 1 [2; 3; 4]%Z None) ].

(** Two document instances of one uri, the second with no range. *)
Definition two_instance_dump : list Element :=
  [ vertex (Document 1 "file:///a.ts" None);
    vertex (Document 2 "file:///a.ts" None);
    vertex (Range 3 (at_ 0 0) (at_ 0 3));
    edge (E1N EdgeLabels.contains 1 [3]%Z None) ].

(** Two document instances of one uri, each with one range, on lines 0
    and 5. *)
Definition missed_instance_dump : list Element :=
  [ vertex (Document 1 "file:///a.ts" None);
    vertex (Document 2 "file:///a.ts" None);
    vertex (Range 3 (at_ 0 0) (at_ 0 3));
    vertex (Range 4 (at_ 5 0) (at_ 5 3));
    edge (E1N EdgeLabels.contains 1 [3]%Z None);
    edge (E1N EdgeLabels.contains 2 [4]%Z None) ].


(** Two result sets, each the next of the other. *)
Definition cycle_dump : list Element :=
  [ vertex (Plain 1 VertexLabels.resultSet);
    vertex (Plain 2 VertexLabels.resultSet);
    edge (E11 EdgeLabels.next 1 2 None);
    edge (E11 EdgeLabels.next 2 1 None) ].

(** The moniker of the symbol dump, as the dump writes it. *)
Definition sample_moniker : Vertex :=
  Moniker 5 "scip" "pkg/foo." (Some MonikerKind.export) None.

Section Database.

Variable md5_base64 : string → string.
Variable JSON_stringify : list (string * JsonValue) → string.
Variable URI_normalize : string → string.
Variable Range_is : Vertex → bool.

(** *** Ingestion *)

Definition truthy (s : option string) : bool :=
  match s with
  | Some s => negb (String.eqb s "")
  | None => false
  end.

Definition processMetaData (projectRoot : option string) (db : JsonDatabase)
    : outcome JsonDatabase :=
  if truthy (workspaceRoot db)
     && bool_decide (is_Some projectRoot)
     && negb (bool_decide (projectRoot = workspaceRoot db))
  then Throw MultipleWorkspaceRoots
  else if bool_decide (is_Some projectRoot) && truthy projectRoot
  then Ret (with_workspaceRoot projectRoot db)
  else Ret db.

(** The bucket of a uri after one more document instance.  The warning
    printed when [hash] differs from the bucket's changes no state. *)
Definition push_document (digest : string) (document : Vertex)
    (value : option DocumentBucket) : DocumentBucket :=
  match value with
  | None => {| hash := digest; documents := [document] |}
  | Some value =>
      {| hash := value.(hash); documents := value.(documents) ++ [document] |}
  end.

(** [document] has its uri normalised already. *)
Definition doProcessDocument (id : Id) (uri : string)
    (document_contents : option string) (db : JsonDatabase) : JsonDatabase :=
  let document := Document id uri document_contents in
  let contents := default "No content provided." document_contents in
  let db := with_vertices
    (λ v, set_vertices_documents (<[id := document]> (vertices_documents v)) v) db in
  let digest := md5_base64 contents in
  with_indices (λ x,
    let x := set_indices_contents (<[digest := contents]> (indices_contents x)) x in
    set_indices_documents
      (<[uri := push_document digest document (indices_documents x !! uri)]>
         (indices_documents x)) x) db.

Definition moniker_key (scheme identifier : string) : string :=
  md5_base64
    (JSON_stringify [("s", JsonString scheme); ("i", JsonString identifier)]).

(** The element as it is once [processVertex] is done with it: a document
    has its uri normalised, a moniker that is not local has its key. *)
Definition ingested (element : Vertex) : Vertex :=
  match element with
  | Document id uri contents => Document id (URI_normalize uri) contents
  | Moniker id scheme identifier kind key =>
      if bool_decide (kind ≠ Some MonikerKind.local)
      then Moniker id scheme identifier kind
             (Some (moniker_key scheme identifier))
      else element
  | _ => element
  end.

Definition processVertex (element : Vertex) (db : JsonDatabase)
    : outcome JsonDatabase :=
  let element := ingested element in
  let db := with_vertices
    (λ v, set_vertices_all (<[vertex_id element := element]> (vertices_all v)) v)
    db in
  match element with
  | MetaData _ projectRoot => processMetaData projectRoot db
  | Document id uri contents => Ret (doProcessDocument id uri contents db)
  | Range id _ _ =>
      Ret (with_vertices
             (λ v, set_vertices_ranges (<[id := element]> (vertices_ranges v)) v)
             db)
  | Moniker _ _ _ kind key =>
      if bool_decide (kind ≠ Some MonikerKind.local) then
        match key with
        | Some key =>
            let values := default [] (indices_monikers (indices db) !! key) in
            Ret (with_indices
                   (λ x, set_indices_monikers
                           (<[key := values ++ [element]]> (indices_monikers x)) x)
                   db)
        | None => Ret db
        end
      else Ret db
  | Plain _ label =>
      match label with
      | VertexLabels.packageInformation
      | VertexLabels.definitionResult
      | VertexLabels.implementationResult
      | VertexLabels.resultSet
      | VertexLabels.referenceResult
      | VertexLabels.hoverResult => Ret db
      | _ => Throw (UnexpectedVertexLabel label)
      end
  end.

(** The target stored for an [item] edge: the vertex itself without a
    property, a tagged wrapper for the five properties the inner switch
    lists, nothing for any other property. *)
Definition item_target (property : option ItemEdgeProperties.t) (to : Vertex)
    : option ItemTarget :=
  match property with
  | Some ItemEdgeProperties.references => Some (tagged_references to)
  | Some ItemEdgeProperties.declarations => Some (tagged_declarations to)
  | Some ItemEdgeProperties.definitions => Some (tagged_definitions to)
  | Some ItemEdgeProperties.referenceResults => Some (tagged_referenceResults to)
  | Some ItemEdgeProperties.referenceLinks => Some (tagged_referenceLinks to)
  | Some (ItemEdgeProperties.unlisted _) => None
  | None => Some (bare to)
  end.

(** [values === undefined ? set(k, [x]) : values.push(x)] *)
Definition push_at {K : Type} `{Countable K} {A : Type} (k : K) (x : A)
    (m : gmap K (list A)) : gmap K (list A) :=
  match m !! k with
  | None => <[k := [x]]> m
  | Some values => <[k := values ++ [x]]> m
  end.

Definition doProcessEdge (label : EdgeLabels.t) (outV inV : Id)
    (property : option ItemEdgeProperties.t) (db : JsonDatabase)
    : outcome JsonDatabase :=
  match vertices_all (vertices db) !! outV with
  | None => Throw (NoVertexFound outV)
  | Some from =>
  match vertices_all (vertices db) !! inV with
  | None => Throw (NoVertexFound inV)
  | Some to =>
    let from_id := vertex_id from in
    let to_id := vertex_id to in
    match label with
    | EdgeLabels.contains =>
        let db := with_out
          (λ o, set_out_contains (push_at from_id to (out_contains o)) o) db in
        Ret (with_in (λ i, set_in_contains (<[to_id := from]> (in_contains i)) i) db)
    | EdgeLabels.item =>
        match item_target property to with
        | Some itemTarget =>
            Ret (with_out
                   (λ o, set_out_item (push_at from_id itemTarget (out_item o)) o) db)
        | None => Ret db
        end
    | EdgeLabels.next =>
        Ret (with_out (λ o, set_out_next (<[from_id := to]> (out_next o)) o) db)
    | EdgeLabels.moniker =>
        let db := with_out
          (λ o, set_out_moniker (<[from_id := to]> (out_moniker o)) o) db in
        Ret (with_in
               (λ i, set_in_moniker
                       (<[to_id := default [] (in_moniker i !! to_id) ++ [from]]>
                          (in_moniker i)) i) db)
    | EdgeLabels.textDocument_documentSymbol =>
        Ret (with_out
               (λ o, set_out_documentSymbol (<[from_id := to]> (out_documentSymbol o)) o) db)
    | EdgeLabels.textDocument_foldingRange =>
        Ret (with_out
               (λ o, set_out_foldingRange (<[from_id := to]> (out_foldingRange o)) o) db)
    | EdgeLabels.textDocument_documentLink =>
        Ret (with_out
               (λ o, set_out_documentLink (<[from_id := to]> (out_documentLink o)) o) db)
    | EdgeLabels.textDocument_diagnostic =>
        Ret (with_out
               (λ o, set_out_diagnostic (<[from_id := to]> (out_diagnostic o)) o) db)
    | EdgeLabels.textDocument_definition =>
        Ret (with_out
               (λ o, set_out_definition (<[from_id := to]> (out_definition o)) o) db)
    | EdgeLabels.textDocument_typeDefinition =>
        Ret (with_out
               (λ o, set_out_typeDefinition (<[from_id := to]> (out_typeDefinition o)) o) db)
    | EdgeLabels.textDocument_hover =>
        Ret (with_out (λ o, set_out_hover (<[from_id := to]> (out_hover o)) o) db)
    | EdgeLabels.textDocument_references =>
        Ret (with_out
               (λ o, set_out_references (<[from_id := to]> (out_references o)) o) db)
    | EdgeLabels.textDocument_declaration
    | EdgeLabels.textDocument_implementation
    | EdgeLabels.unlisted _ => Ret db
    end
  end
  end.

Definition processEdge (e : Edge) (db : JsonDatabase) : outcome JsonDatabase :=
  match e with
  | E11 label outV inV edge_property =>
      let property :=
        if bool_decide (label = EdgeLabels.item) then edge_property else None in
      doProcessEdge label outV inV property db
  | E1N label outV inVs edge_property =>
      let property :=
        if bool_decide (label = EdgeLabels.item) then edge_property else None in
      for_of inVs (λ db inV, doProcessEdge label outV inV property db) db
  | shapeless _ => Ret db
  end.

(** [load], on the parsed lines of a file. *)
Definition load (lines : list Element) (db : JsonDatabase) : outcome JsonDatabase :=
  for_of lines
    (λ db element,
       match element with
       | vertex v => processVertex v db
       | edge e => processEdge e db
       | foreign => Throw UnexpectedElementType
       end)
    db.

(** The store after [lines] are loaded into a new database; the new
    database itself when the load throws. *)
Definition loaded (lines : list Element) : JsonDatabase :=
  match load lines empty_database with
  | Ret db => db
  | _ => empty_database
  end.

(** *** Position resolution *)

Definition containsPosition (range : Span) (position : Position) : bool :=
  if (position.(line) <? range.(start).(line))%Z
     || (position.(line) >? range.(end_).(line))%Z
  then false
  else if (position.(line) =? range.(start).(line))%Z
          && (position.(character) <? range.(start).(character))%Z
  then false
  else if (position.(line) =? range.(end_).(line))%Z
          && (position.(character) >? range.(end_).(character))%Z
  then false
  else true.

(** Test if [otherRange] is in [range]; true when the ranges are equal. *)
Definition containsRange (range otherRange : Span) : bool :=
  if (otherRange.(start).(line) <? range.(start).(line))%Z
     || (otherRange.(end_).(line) <? range.(start).(line))%Z
  then false
  else if (otherRange.(start).(line) >? range.(end_).(line))%Z
          || (otherRange.(end_).(line) >? range.(end_).(line))%Z
  then false
  else if (otherRange.(start).(line) =? range.(start).(line))%Z
          && (otherRange.(start).(character) <? range.(start).(character))%Z
  then false
  else if (otherRange.(end_).(line) =? range.(end_).(line))%Z
          && (otherRange.(end_).(character) >? range.(end_).(character))%Z
  then false
  else true.

(** One turn of the inner loop of [findRangesFromPosition]. *)
Definition consider (position : Position) (candidate : option Vertex)
    (item : Vertex) : option Vertex :=
  match item with
  | Range _ item_start item_end =>
      let item_span := {| start := item_start; end_ := item_end |} in
      if containsPosition item_span position then
        match candidate with
        | None => Some item
        | Some (Range _ s e) =>
            if containsRange {| start := s; end_ := e |} item_span
            then Some item
            else candidate
        | Some _ => candidate
        end
      else candidate
  | _ => candidate
  end.

Definition pick_candidate (position : Position) (contains : list Vertex)
    : option Vertex :=
  fold_left (consider position) contains None.

(** The loop over the document instances of a uri; [None] is
    [undefined]. *)
Fixpoint ranges_of_documents (db : JsonDatabase) (position : Position)
    (docs : list Vertex) (result : list Vertex) : option (list Vertex) :=
  match docs with
  | [] => match result with [] => None | _ => Some result end
  | document :: docs' =>
      match out_contains (out db) !! vertex_id document with
      | None | Some [] => None
      | Some contains =>
          ranges_of_documents db position docs'
            (result ++ option_list (pick_candidate position contains))
      end
  end.

Definition findRangesFromPosition (db : JsonDatabase) (file : string)
    (position : Position) : option (list Vertex) :=
  match indices_documents (indices db) !! file with
  | None => None
  | Some value => ranges_of_documents db position value.(documents) []
  end.

(** *** Result paths *)

Record PathEntry := { entry_vertex : Id; entry_moniker : option Vertex }.

Record ResultPath := {
  path : list PathEntry;
  result : option (Vertex * option Vertex)
}.

(** The [do ... while (true)] of [getResultPath], one turn per unit of
    fuel; [None] when the fuel runs out before the loop returns. *)
Fixpoint walk (db : JsonDatabase) (edges : gmap Id Vertex) (fuel : nat)
    (currentId : Id) (trail : list PathEntry) : option ResultPath :=
  match fuel with
  | O => None
  | S fuel' =>
      let value := edges !! currentId in
      let moniker := out_moniker (out db) !! currentId in
      match value with
      | Some value => Some {| path := trail; result := Some (value, moniker) |}
      | None =>
          let trail :=
            trail ++ [{| entry_vertex := currentId; entry_moniker := moniker |}] in
          match out_next (out db) !! currentId with
          | None => Some {| path := trail; result := None |}
          | Some next => walk db edges fuel' (vertex_id next) trail
          end
      end
  end.

Definition getResultPath (db : JsonDatabase) (fuel : nat) (start : Id)
    (edges : gmap Id Vertex) : outcome ResultPath :=
  match walk db edges fuel start [] with
  | Some r => Ret r
  | None => OutOfFuel
  end.

(** The first entry with a moniker, the list taken from the tail of the
    trail to its head. *)
Fixpoint first_moniker (entries : list PathEntry) : option Vertex :=
  match entries with
  | [] => None
  | e :: entries' =>
      match e.(entry_moniker) with
      | Some m => Some m
      | None => first_moniker entries'
      end
  end.

Definition getMostSpecificMoniker (r : ResultPath) : option Vertex :=
  match r.(result) with
  | Some (_, Some moniker) => Some moniker
  | _ => first_moniker (reverse r.(path))
  end.

Definition findVerticesForMoniker (db : JsonDatabase) (moniker : Vertex)
    : option (list Vertex) :=
  in_moniker (in_ db) !! vertex_id moniker.

Definition item (db : JsonDatabase) (value : Vertex) : option (list ItemTarget) :=
  match value with
  | Plain id VertexLabels.declarationResult
  | Plain id VertexLabels.definitionResult
  | Plain id VertexLabels.referenceResult => out_item (out db) !! id
  | _ => None
  end.

(** *** Locations *)

(** [JSON.stringify] leaves out a field whose value is [undefined]. *)
Definition makeKey (location : Location) : string :=
  md5_base64
    (JSON_stringify
       (match location.(uri) with
        | Some d => [("d", JsonString d)]
        | None => []
        end
        ++ [("sl", JsonNumber location.(range).(start).(line));
            ("sc", JsonNumber location.(range).(start).(character));
            ("el", JsonNumber location.(range).(end_).(line));
            ("ec", JsonNumber location.(range).(end_).(character))])).

(** What one top-level query accumulates.  [lookups] is not a variable of
    the source: it lists, in order, the keys with which
    [this.indices.monikers.get] was called. *)
Record QueryState := {
  locations : list Location;
  dedupLocations : gset string;
  dedupMonikers : gset (option string);
  lookups : list (option string)
}.

Definition initial_state : QueryState :=
  {| locations := []; dedupLocations := ∅; dedupMonikers := ∅; lookups := [] |}.

(** The end of [addLocation]: the location is pushed unless its key is
    in the dedup set already. *)
Definition push_location (location : Location) (s : QueryState) : QueryState :=
  let key := makeKey location in
  if decide (key ∈ s.(dedupLocations)) then s
  else {| locations := s.(locations) ++ [location];
          dedupLocations := {[key]} ∪ s.(dedupLocations);
          dedupMonikers := s.(dedupMonikers);
          lookups := s.(lookups) |}.

(** [addLocation] on a vertex of the store.  No vertex has a [range]
    field, so none is a [types.Location], and the location is built from
    the owning document; a vertex no document contains, or one with no
    [start] and [end], raises a type error, and an owner with no [uri]
    hands [undefined] to the uri library. *)
Definition addLocation (db : JsonDatabase) (value : Vertex) (s : QueryState)
    : outcome QueryState :=
  match in_contains (in_ db) !! vertex_id value with
  | None => Throw TypeError
  | Some document =>
      match vertex_uri document with
      | None => Throw OutsideEmbedding
      | Some document_uri =>
          match vertex_span value with
          | None => Throw TypeError
          | Some span =>
              Ret (push_location
                     {| uri := Some (URI_normalize document_uri); range := span |}
                     s)
          end
      end
  end.

(** [addLocation] on an element of an item list.  A wrapper with a
    [range] is a [types.Location] when the library takes that range for a
    [types.Range]: the wrapper is then the location itself, one with no
    uri, and its key is read from the [start] and [end] of the range.
    Any other wrapper has no [id], so no document owns it. *)
Definition addLocation_item (db : JsonDatabase) (element : ItemTarget)
    (s : QueryState) : outcome QueryState :=
  match element with
  | bare to => addLocation db to s
  | tagged_declarations range
  | tagged_definitions range
  | tagged_references range =>
      if Range_is range then
        match vertex_span range with
        | None => Throw TypeError
        | Some span => Ret (push_location {| uri := None; range := span |} s)
        end
      else Throw TypeError
  | tagged_referenceResults _ | tagged_referenceLinks _ => Throw TypeError
  end.

(** *** Declarations and definitions *)

(** The union type the source declares for the two queries. *)
Inductive Targets :=
| undefined
| one_location (location : Location)
| location_array (locations : list Location).

Section findTargets.

Variable db : JsonDatabase.
Variable fuel : nat.
Variable edges : gmap Id Vertex.

(** The elements of a definition or declaration result are handed to
    [addLocation] as they are, tagged wrappers included, although the
    declared type is [Range[]]. *)
Definition resolveTargets (targetResult : Vertex) (s : QueryState)
    : outcome QueryState :=
  match item db targetResult with
  | None => Ret s
  | Some ranges =>
      for_of ranges (λ s element, addLocation_item db element s) s
  end.

Definition mark_moniker (key : option string) (s : QueryState) : QueryState :=
  {| locations := s.(locations);
     dedupLocations := s.(dedupLocations);
     dedupMonikers := {[key]} ∪ s.(dedupMonikers);
     lookups := s.(lookups) ++ [key] |}.

Definition matching_monikers (key : option string) : option (list Vertex) :=
  k ← key; indices_monikers (indices db) !! k.

(** The body of [for (const moniker of monikers)] in [_findTargets]. *)
Definition expand_targets (s : QueryState) (moniker : Vertex) : outcome QueryState :=
  if decide (vertex_key moniker ∈ s.(dedupMonikers)) then Ret s
  else
    let s := mark_moniker (vertex_key moniker) s in
    match matching_monikers (vertex_key moniker) with
    | None => Ret s
    | Some matchingMonikers =>
        for_of matchingMonikers
          (λ s matchingMoniker,
             match findVerticesForMoniker db matchingMoniker with
             | None => Ret s
             | Some vertices =>
                 for_of vertices
                   (λ s v,
                      resultPath ← getResultPath db fuel (vertex_id v) edges;
                      match resultPath.(result) with
                      | None => Ret s
                      | Some (value, _) => resolveTargets value s
                      end)
                   s
             end)
          s
    end.

Definition _findTargets (s : QueryState) (range : Vertex) : outcome QueryState :=
  resultPath ← getResultPath db fuel (vertex_id range) edges;
  match resultPath.(result) with
  | None => Ret s
  | Some (value, _) =>
      let monikers := option_list (getMostSpecificMoniker resultPath) in
      s ← resolveTargets value s;
      for_of monikers expand_targets s
  end.

Definition findTargets_state (uri : string) (position : Position)
    : outcome (option QueryState) :=
  match findRangesFromPosition db (URI_normalize uri) position with
  | None => Ret None
  | Some ranges => s ← for_of ranges _findTargets initial_state; Ret (Some s)
  end.

Definition findTargets (uri : string) (position : Position) : outcome Targets :=
  s ← findTargets_state uri position;
  match s with
  | None => Ret undefined
  | Some s => Ret (location_array s.(locations))
  end.

End findTargets.

Definition declarations (db : JsonDatabase) (fuel : nat) (uri : string)
    (position : Position) : outcome Targets :=
  findTargets db fuel (out_declaration (out db)) uri position.

Definition definitions (db : JsonDatabase) (fuel : nat) (uri : string)
    (position : Position) : outcome Targets :=
  findTargets db fuel (out_definition (out db)) uri position.

(** *** References *)

(** What one [findReferences] call works on: the accumulators of the
    query and the [monikers] array, which [resolveReferenceResult]
    extends while the caller's loop runs over it. *)
Record ReferenceState := { query : QueryState; monikers : list Vertex }.

Definition on_query (f : QueryState → outcome QueryState) (st : ReferenceState)
    : outcome ReferenceState :=
  s ← f st.(query); Ret {| query := s; monikers := st.(monikers) |}.

Definition push_moniker (moniker : Vertex) (st : ReferenceState) : ReferenceState :=
  {| query := st.(query); monikers := st.(monikers) ++ [moniker] |}.

Section references.

Variable db : JsonDatabase.
Variable fuel : nat.
Variable includeDeclaration : bool.

(** One unit of [depth] per nested call. *)
Fixpoint resolveReferenceResult (depth : nat) (referenceResult : Vertex)
    (st : ReferenceState) : outcome ReferenceState :=
  match depth with
  | O => OutOfFuel
  | S depth' =>
      match item db referenceResult with
      | None => Ret st
      | Some targets =>
          for_of targets
            (λ st target,
               match target with
               | tagged_declarations range | tagged_definitions range =>
                   if includeDeclaration
                   then on_query (addLocation db range) st
                   else Ret st
               | tagged_references range => on_query (addLocation db range) st
               | tagged_referenceResults result =>
                   resolveReferenceResult depth' result st
               | tagged_referenceLinks result => Ret (push_moniker result st)
               | bare to =>
                   if is_range to then on_query (addLocation db to) st else Ret st
               end)
            st
      end
  end.

(** The body of [for (const moniker of monikers)] in [findReferences]. *)
Definition expand_references (st : ReferenceState) (moniker : Vertex)
    : outcome ReferenceState :=
  if decide (vertex_key moniker ∈ st.(query).(dedupMonikers)) then Ret st
  else
    let st := {| query := mark_moniker (vertex_key moniker) st.(query);
                 monikers := st.(monikers) |} in
    match matching_monikers db (vertex_key moniker) with
    | None => Ret st
    | Some matchingMonikers =>
        for_of matchingMonikers
          (λ st matchingMoniker,
             match findVerticesForMoniker db matchingMoniker with
             | None => Ret st
             | Some vertices =>
                 for_of vertices
                   (λ st v,
                      resultPath ← getResultPath db fuel (vertex_id v)
                                     (out_references (out db));
                      match resultPath.(result) with
                      | None => Ret st
                      | Some (value, _) => resolveReferenceResult fuel value st
                      end)
                   st
             end)
          st
    end.

(** The loop itself: the array iterator reads [monikers[i]] afresh at
    every turn, so it reaches the monikers pushed during earlier turns. *)
Fixpoint moniker_loop (turns : nat) (i : nat) (st : ReferenceState)
    : outcome ReferenceState :=
  match turns with
  | O => OutOfFuel
  | S turns' =>
      match st.(monikers) !! i with
      | None => Ret st
      | Some moniker =>
          st ← expand_references st moniker; moniker_loop turns' (S i) st
      end
  end.

Definition findReferences (s : QueryState) (range : Vertex) : outcome QueryState :=
  resultPath ← getResultPath db fuel (vertex_id range) (out_references (out db));
  match resultPath.(result) with
  | None => Ret s
  | Some (value, _) =>
      let monikers := option_list (getMostSpecificMoniker resultPath) in
      st ← resolveReferenceResult fuel value {| query := s; monikers := monikers |};
      st ← moniker_loop fuel 0 st;
      Ret st.(query)
  end.

Definition references_state (uri : string) (position : Position)
    : outcome (option QueryState) :=
  match findRangesFromPosition db (URI_normalize uri) position with
  | None => Ret None
  | Some ranges => s ← for_of ranges findReferences initial_state; Ret (Some s)
  end.

Definition references (uri : string) (position : Position)
    : outcome (option (list Location)) :=
  s ← references_state uri position;
  match s with
  | None => Ret None
  | Some s => Ret (Some s.(locations))
  end.

End references.

(** *** All exported definitions of a document *)

(** [s.endsWith(searchString)] and [s.includes(searchString)]. *)
Fixpoint endsWith (s searchString : string) : bool :=
  String.eqb s searchString
  || match s with
     | EmptyString => false
     | String _ s' => endsWith s' searchString
     end.

Fixpoint includes (s searchString : string) : bool :=
  String.prefix searchString s
  || match s with
     | EmptyString => false
     | String _ s' => includes s' searchString
     end.

(** The three [continue]s on the moniker of a range. *)
Definition is_exported_definition (moniker : Vertex) : bool :=
  match moniker with
  | Moniker _ _ identifier (Some MonikerKind.export) _ =>
      endsWith identifier "."
      && negb (includes identifier "`<constructor>`"
               || includes identifier "#getDerivedStateFromProps()"
               || includes identifier "#propTypes")
  | _ => false
  end.

Definition has_uri (url : string) (item : Location) : Prop :=
  item.(uri) = Some url.

#[export] Instance has_uri_dec url item : Decision (has_uri url item).
Proof. unfold has_uri. apply _. Defined.

Section allDefinitions.

Variable db : JsonDatabase.
Variable fuel : nat.

(** One turn of [for (const item of contains)]. *)
Definition collect_definitions (document : Vertex) (results : list Location)
    (item : Vertex) : outcome (list Location) :=
  match item with
  | Range id item_start _ =>
      resultPath ← getResultPath db fuel id (out_definition (out db));
      match getMostSpecificMoniker resultPath with
      | None => Ret results
      | Some moniker =>
          if is_exported_definition moniker then
            match vertex_uri document with
            | None => Throw OutsideEmbedding
            | Some document_uri =>
                found ← definitions db fuel document_uri item_start;
                match found with
                | location_array found => Ret (results ++ found)
                | one_location found => Ret (results ++ [found])
                | undefined => Ret results
                end
            end
          else Ret results
      end
  | _ => Ret results
  end.

(** The loop over the document instances; [Ret None] is the
    [return undefined] from inside it. *)
Fixpoint definitions_of_documents (docs : list Vertex) (results : list Location)
    : outcome (option (list Location)) :=
  match docs with
  | [] => Ret (Some results)
  | document :: docs' =>
      match out_contains (out db) !! vertex_id document with
      | None | Some [] => Ret None
      | Some contains =>
          results ← for_of contains (collect_definitions document) results;
          definitions_of_documents docs' results
      end
  end.

Definition allDefinitions (uri : string) : outcome (option (list Location)) :=
  let url := URI_normalize uri in
  match indices_documents (indices db) !! url with
  | None => Ret None
  | Some value =>
      results ← definitions_of_documents value.(documents) [];
      match results with
      | None | Some [] => Ret None
      | Some results => Ret (Some (filter (has_uri url) results))
      end
  end.

End allDefinitions.

(** *** The [unused-definitions] command

    The body of the command for one file, on a store already loaded: the
    locations handed to [print], in order. *)

Section unused_definitions.

Variable db : JsonDatabase.
Variable fuel : nat.

(** [database.references(definition.uri, definition.range.start,
    {includeDeclaration: true})]; a definition with no uri hands
    [undefined] to the uri library. *)
Definition references_of (definition : Location)
    : outcome (option (list Location)) :=
  match definition.(uri) with
  | Some definition_uri =>
      references db fuel true definition_uri definition.(range).(start)
  | None => Throw OutsideEmbedding
  end.

(** The location printed for the answer of a references query: the
    first, when the answer is a list of length one. *)
Definition sole_reference (found : option (list Location)) : option Location :=
  match found with
  | Some [only] => Some only
  | _ => None
  end.

Definition report_if_unused (printed : list Location) (definition : Location)
    : outcome (list Location) :=
  found ← references_of definition;
  Ret (printed ++ option_list (sole_reference found)).

Definition unused_definitions (file : string) : outcome (list Location) :=
  found ← allDefinitions db fuel file;
  for_of (default [] found) report_if_unused [].

End unused_definitions.

(** *** Printing a location

    [content] stands for the lines read from the file of the location,
    [is_file] for the test on the scheme of its uri. *)

Definition newline : string := String (Ascii.ascii_of_nat 10) EmptyString.

(** [`${content[i]}`]: an index outside the array gives [undefined]. *)
Definition line_text (content : list string) (i : Z) : string :=
  if (i <? 0)%Z then "undefined"
  else default "undefined" (content !! Z.to_nat i).

Definition context_line (content : list string) (location : Location) (i : Z)
    : string :=
  ((if (i =? location.(range).(start).(line))%Z then " > " else "   ")
   ++ pretty (i + 1)%Z ++ ": " ++ line_text content i)%string.

(** [for (let i = start.line - context; i <= end.line + context; i++)] *)
Definition context_lines (content : list string) (location : Location)
    (context : Z) : list string :=
  context_line content location
  <$> seqZ (location.(range).(start).(line) - context)
        (location.(range).(end_).(line) + context
         - (location.(range).(start).(line) - context) + 1).

(** [`${location.uri}:${start.line + 1}:${start.character + 1}`] *)
Definition header (location : Location) : string :=
  (default "undefined" location.(uri) ++ ":"
   ++ pretty (location.(range).(start).(line) + 1)%Z ++ ":"
   ++ pretty (location.(range).(start).(character) + 1)%Z)%string.

Definition print_lines (is_file : bool) (content : list string)
    (location : Location) (context : Z) : list string :=
  [header location]
  ++ (if is_file then context_lines content location context else [])
  ++ [EmptyString].

Definition print (is_file : bool) (content : list string) (location : Location)
    (context : Z) : string :=
  String.concat newline (print_lines is_file content location context).

(** * Properties

    ** Loops and outcomes *)

Lemma bind_Ret {A B : Type} (m : outcome A) (k : A → outcome B) (b : B) :
  m ≫= k = Ret b ↔ ∃ a, m = Ret a ∧ k a = Ret b.
Proof.
  destruct m as [a| |]; simpl; split.
  - eauto.
  - intros (a' & [= <-] & Hk). exact Hk.
  - discriminate.
  - intros (? & [=] & _).
  - discriminate.
  - intros (? & [=] & _).
Qed.

Lemma for_of_app {S A : Type} (xs ys : list A) (body : S → A → outcome S) (s : S) :
  for_of (xs ++ ys) body s = for_of xs body s ≫= for_of ys body.
Proof.
  revert s. induction xs as [|x xs IH]; intros s; simpl; [done|].
  destruct (body s x) as [s'| |]; simpl; auto.
Qed.

(** A property of the state that every turn of a loop keeps is kept by
    the loop. *)
Lemma for_of_invariant {S A : Type} (P : S → Prop) (xs : list A)
    (body : S → A → outcome S) :
  (∀ s x s', x ∈ xs → P s → body s x = Ret s' → P s') →
  ∀ s s', P s → for_of xs body s = Ret s' → P s'.
Proof.
  induction xs as [|x xs IH]; intros Hbody s s' Hs; simpl.
  - intros [= <-]. exact Hs.
  - intros (s1 & H1 & H2)%bind_Ret.
    eapply IH; [| |exact H2].
    + intros s0 y s0' Hy. apply Hbody. by right.
    + eapply Hbody; [by left|exact Hs|exact H1].
Qed.

(** ** The most specific moniker of a result path *)

Lemma first_moniker_app_None (xs ys : list PathEntry) :
  Forall (λ e, e.(entry_moniker) = None) xs →
  first_moniker (xs ++ ys) = first_moniker ys.
Proof.
  induction 1 as [|e xs He _ IH]; simpl; [done|]. by rewrite He.
Qed.

Lemma first_moniker_None (xs : list PathEntry) :
  Forall (λ e, e.(entry_moniker) = None) xs → first_moniker xs = None.
Proof.
  intros H. rewrite <- (app_nil_r xs). by rewrite first_moniker_app_None.
Qed.

(** C6: when the terminal entry of a result path carries a moniker, that
    moniker is the most specific one; otherwise it is the moniker of the
    last trail entry that has one (every entry after it, towards the
    terminal, has none); and there is none when no trail entry has one. *)
Theorem C6_most_specific_moniker (r : ResultPath) :
  (∀ value moniker,
     r.(result) = Some (value, Some moniker) →
     getMostSpecificMoniker r = Some moniker)
  ∧ (∀ head entry tail moniker,
       (r.(result) = None ∨ ∃ value, r.(result) = Some (value, None)) →
       r.(path) = head ++ entry :: tail →
       entry.(entry_moniker) = Some moniker →
       Forall (λ e, e.(entry_moniker) = None) tail →
       getMostSpecificMoniker r = Some moniker)
  ∧ ((r.(result) = None ∨ ∃ value, r.(result) = Some (value, None)) →
     Forall (λ e, e.(entry_moniker) = None) r.(path) →
     getMostSpecificMoniker r = None).
Proof.
  unfold getMostSpecificMoniker. split; [|split].
  - intros value moniker ->. done.
  - intros head entry tail moniker Hres -> Hentry Htail.
    assert (first_moniker (reverse (head ++ entry :: tail)) = Some moniker) as Hfirst.
    { rewrite reverse_app, reverse_cons, <- app_assoc.
      rewrite first_moniker_app_None by by apply Forall_reverse.
      simpl. by rewrite Hentry. }
    destruct Hres as [->|[value ->]]; exact Hfirst.
  - intros Hres Hpath.
    assert (first_moniker (reverse r.(path)) = None) as Hfirst.
    { apply first_moniker_None. by apply Forall_reverse. }
    destruct Hres as [->|[value ->]]; exact Hfirst.
Qed.

(** ** Containment of positions and ranges *)

(** The order of positions: by line, then by character. *)
Definition position_le (a b : Position) : Prop :=
  (a.(line) < b.(line) ∨ (a.(line) = b.(line) ∧ a.(character) ≤ b.(character)))%Z.

Ltac by_cases_on_comparisons :=
  repeat match goal with
         | |- context [(?a >? ?b)%Z] => rewrite (Z.gtb_ltb a b)
         | H : context [(?a >? ?b)%Z] |- _ => rewrite (Z.gtb_ltb a b) in H
         end;
  repeat match goal with
         | |- context [(?a <? ?b)%Z] => destruct (Z.ltb_spec a b)
         | |- context [(?a =? ?b)%Z] => destruct (Z.eqb_spec a b)
         | H : context [(?a <? ?b)%Z] |- _ => destruct (Z.ltb_spec a b)
         | H : context [(?a =? ?b)%Z] |- _ => destruct (Z.eqb_spec a b)
         end;
  simpl in *; try done; try lia.

Lemma containsPosition_spec (range : Span) (position : Position) :
  containsPosition range position = true
  ↔ position_le range.(start) position ∧ position_le position range.(end_).
Proof.
  unfold containsPosition, position_le.
  destruct range as [[sl sc] [el ec]], position as [pl pc]; simpl.
  split; [intros H | intros [H1 H2]]; by_cases_on_comparisons.
Qed.

Lemma containsRange_spec (range otherRange : Span) :
  containsRange range otherRange = true
  ↔ position_le range.(start) otherRange.(start)
    ∧ position_le otherRange.(end_) range.(end_)
    ∧ (range.(start).(line) ≤ otherRange.(end_).(line))%Z
    ∧ (otherRange.(start).(line) ≤ range.(end_).(line))%Z.
Proof.
  unfold containsRange, position_le.
  destruct range as [[sl sc] [el ec]], otherRange as [[osl osc] [oel oec]]; simpl.
  split; [intros H | intros (H1 & H2 & H3 & H4)]; by_cases_on_comparisons.
Qed.

Lemma containsRange_trans (a b c : Span) :
  containsRange a b = true → containsRange b c = true → containsRange a c = true.
Proof.
  rewrite !containsRange_spec. unfold position_le.
  destruct a as [[? ?] [? ?]], b as [[? ?] [? ?]], c as [[? ?] [? ?]]; simpl. lia.
Qed.

Lemma containsRange_antisym (a b : Span) :
  containsRange a b = true → containsRange b a = true → a = b.
Proof.
  rewrite !containsRange_spec. unfold position_le.
  destruct a as [[asl asc] [ael aec]], b as [[bsl bsc] [bel bec]]; simpl.
  intros H1 H2.
  assert (asl = bsl ∧ asc = bsc ∧ ael = bel ∧ aec = bec) as (-> & -> & -> & ->) by lia.
  done.
Qed.

(** A range that contains a position is well formed, and contains
    itself. *)
Lemma containsRange_refl (a : Span) (position : Position) :
  containsPosition a position = true → containsRange a a = true.
Proof.
  rewrite containsPosition_spec, containsRange_spec. unfold position_le.
  destruct a as [[? ?] [? ?]], position as [? ?]; simpl. lia.
Qed.

(** ** Position resolution *)

(** [v] is a range vertex whose span contains [position]. *)
Definition contains_at (position : Position) (v : Vertex) : Prop :=
  ∃ span, vertex_span v = Some span ∧ containsPosition span position = true.

(** The span of [inner] lies within the span of [outer]. *)
Definition within (inner outer : Vertex) : Prop :=
  ∃ i o, vertex_span inner = Some i ∧ vertex_span outer = Some o
         ∧ containsRange o i = true.

Lemma within_trans (a b c : Vertex) : within a b → within b c → within a c.
Proof.
  intros (i & o & Hi & Ho & H1) (i' & o' & Hi' & Ho' & H2).
  rewrite Ho in Hi'. injection Hi' as <-.
  exists i, o'. split_and!; [done..|]. by eapply containsRange_trans.
Qed.

(** What the inner loop of [findRangesFromPosition] keeps true of its
    candidate once it has gone through [processed]. *)
Definition candidate_of (position : Position) (processed : list Vertex)
    (candidate : option Vertex) : Prop :=
  match candidate with
  | None => ∀ x, x ∈ processed → ¬ contains_at position x
  | Some c =>
      c ∈ processed ∧ contains_at position c
      ∧ ∀ x, x ∈ processed → contains_at position x → within x c → within c x
  end.

Lemma consider_candidate (position : Position) (processed : list Vertex)
    (candidate : option Vertex) (item : Vertex) :
  candidate_of position processed candidate →
  candidate_of position (processed ++ [item]) (consider position candidate item).
Proof.
  intros Hinv.
  assert (¬ contains_at position item →
          candidate_of position (processed ++ [item]) candidate) as Hskip.
  { intros Hno. destruct candidate as [c|]; simpl in *.
    - destruct Hinv as (Hin & Hc & Hmin).
      split_and!; [apply elem_of_app; by left|done|].
      intros x [Hx|Hx%list_elem_of_singleton]%elem_of_app Hat; [by apply Hmin|].
      by subst.
    - intros x [Hx|Hx%list_elem_of_singleton]%elem_of_app; [by apply Hinv|].
      by subst. }
  destruct item as [| |id s e| |]; simpl;
    try (apply Hskip; by intros (? & [=] & _)).
  destruct (containsPosition _ position) eqn:Hpos;
    [|apply Hskip; intros (? & [= <-] & ?); congruence].
  set (item := Range id s e).
  assert (contains_at position item) as Hitem by (eexists; eauto).
  destruct candidate as [c|]; simpl in *.
  - destruct Hinv as (Hin & Hc & Hmin).
    destruct Hc as (cspan & Hcspan & Hcpos).
    destruct c as [| |cid cs ce| |]; try discriminate. simpl in Hcspan.
    injection Hcspan as <-.
    set (c := Range cid cs ce) in *.
    destruct (containsRange _ _) eqn:Hnested; simpl.
    + assert (within item c) as Hic by (eexists _, _; eauto).
      split_and!; [apply elem_of_app; right; by apply list_elem_of_singleton|done|].
      intros x [Hx|Hx%list_elem_of_singleton]%elem_of_app Hat Hxi.
      * eapply within_trans; [exact Hic|].
        apply Hmin; [done..|]. by eapply within_trans.
      * by subst.
    + split_and!; [apply elem_of_app; by left|by eexists; eauto|].
      intros x [Hx|Hx%list_elem_of_singleton]%elem_of_app Hat Hxc; [by apply Hmin|].
      subst x. destruct Hxc as (i & o & [= <-] & [= <-] & Hcontra). congruence.
  - split_and!; [apply elem_of_app; right; by apply list_elem_of_singleton|done|].
    intros x [Hx|Hx%list_elem_of_singleton]%elem_of_app Hat Hxi; [|by subst].
    by destruct (Hinv x).
Qed.

Lemma fold_consider_candidate (position : Position) (rest processed : list Vertex)
    (candidate : option Vertex) :
  candidate_of position processed candidate →
  candidate_of position (processed ++ rest)
    (fold_left (consider position) rest candidate).
Proof.
  revert processed candidate.
  induction rest as [|item rest IH]; intros processed candidate Hinv; simpl.
  - by rewrite app_nil_r.
  - rewrite (assoc_L (++) processed [item] rest : processed ++ item :: rest = _).
    apply IH. by apply consider_candidate.
Qed.

Lemma pick_candidate_of (position : Position) (contains : list Vertex) :
  candidate_of position contains (pick_candidate position contains).
Proof.
  apply (fold_consider_candidate position contains [] None). intros x Hx.
  by apply not_elem_of_nil in Hx.
Qed.

(** The candidate of one document instance. *)
Definition candidate_in (db : JsonDatabase) (position : Position)
    (document : Vertex) : option Vertex :=
  out_contains (out db) !! vertex_id document ≫= pick_candidate position.

Lemma ranges_of_documents_Some (db : JsonDatabase) (position : Position)
    (docs result ranges : list Vertex) :
  ranges_of_documents db position docs result = Some ranges →
  ranges = result ++ omap (candidate_in db position) docs.
Proof.
  revert result. induction docs as [|document docs IH]; intros result; simpl.
  - destruct result; [done|]. intros [= <-]. by rewrite app_nil_r.
  - unfold candidate_in at 1.
    destruct (out_contains (out db) !! vertex_id document) as [[|item contains]|];
      [done| |done].
    intros ->%IH. simpl.
    destruct (pick_candidate position (item :: contains)); simpl.
    + by rewrite <- app_assoc.
    + by rewrite app_nil_r.
Qed.

Lemma ranges_of_documents_abort (db : JsonDatabase) (position : Position)
    (docs result : list Vertex) (document : Vertex) :
  document ∈ docs →
  out_contains (out db) !! vertex_id document = None
  ∨ out_contains (out db) !! vertex_id document = Some [] →
  ranges_of_documents db position docs result = None.
Proof.
  intros Hin Hbad. revert result.
  induction docs as [|d docs IH]; intros result; [by apply not_elem_of_nil in Hin|].
  simpl. destruct (out_contains (out db) !! vertex_id d) as [[|item contains]|] eqn:Hd;
    [done| |done].
  apply elem_of_cons in Hin as [->|Hin]; [|by apply IH].
  destruct Hbad; congruence.
Qed.

Lemma pick_candidate_None (position : Position) (contains : list Vertex) :
  (∀ item, item ∈ contains → ¬ contains_at position item) →
  pick_candidate position contains = None.
Proof.
  intros Hno. pose proof (pick_candidate_of position contains) as Hinv.
  destruct (pick_candidate position contains) as [c|]; [|done].
  destruct Hinv as (Hin & Hat & _). by destruct (Hno c).
Qed.

Lemma ranges_of_documents_skip (db : JsonDatabase) (position : Position)
    (pre post result : list Vertex) (document : Vertex) (contains : list Vertex) :
  out_contains (out db) !! vertex_id document = Some contains →
  contains ≠ [] →
  pick_candidate position contains = None →
  ranges_of_documents db position (pre ++ document :: post) result
  = ranges_of_documents db position (pre ++ post) result.
Proof.
  intros Hcontains Hne Hpick. revert result.
  induction pre as [|d pre IH]; intros result; simpl.
  - rewrite Hcontains, Hpick. simpl. rewrite app_nil_r.
    by destruct contains.
  - destruct (out_contains (out db) !! vertex_id d) as [[|]|]; auto.
Qed.

(** A document instance with a contains list that is not empty. *)
Definition has_ranges (db : JsonDatabase) (document : Vertex) : Prop :=
  ∃ first contains,
    out_contains (out db) !! vertex_id document = Some (first :: contains).

Lemma ranges_of_documents_all (db : JsonDatabase) (position : Position)
    (docs result : list Vertex) :
  Forall (has_ranges db) docs →
  ranges_of_documents db position docs result
  = match result ++ omap (candidate_in db position) docs with
    | [] => None
    | ranges => Some ranges
    end.
Proof.
  intros Hdocs. revert result.
  induction Hdocs as [|document docs (first & contains & Hcontains) _ IH];
    intros result; simpl.
  - rewrite app_nil_r. by destruct result.
  - unfold candidate_in at 1. rewrite Hcontains. simpl. rewrite IH.
    destruct (pick_candidate position (first :: contains)); simpl.
    + by rewrite <- app_assoc.
    + by rewrite app_nil_r.
Qed.

(** C9: when one document instance of a uri has no contains list, or an
    empty one, position resolution for the uri returns nothing, whatever
    the other instances hold.  An instance with ranges none of which
    contains the position contributes nothing and aborts nothing: when
    the other instances all have ranges, what is returned is the list of
    their candidates, so a range of another instance that contains the
    position has that instance return a range containing it. *)
Theorem C9_document_without_ranges_aborts (db : JsonDatabase) (file : string)
    (position : Position) (bucket : DocumentBucket) :
  indices_documents (indices db) !! file = Some bucket →
  (∀ document,
     document ∈ bucket.(documents) →
     out_contains (out db) !! vertex_id document = None
     ∨ out_contains (out db) !! vertex_id document = Some [] →
     findRangesFromPosition db file position = None)
  ∧ (∀ pre document post contains,
       bucket.(documents) = pre ++ document :: post →
       out_contains (out db) !! vertex_id document = Some contains →
       contains ≠ [] →
       (∀ item, item ∈ contains → ¬ contains_at position item) →
       Forall (has_ranges db) (pre ++ post) →
       findRangesFromPosition db file position
       = match omap (candidate_in db position) (pre ++ post) with
         | [] => None
         | ranges => Some ranges
         end
       ∧ ∀ other others r,
           other ∈ pre ++ post →
           out_contains (out db) !! vertex_id other = Some others →
           r ∈ others → contains_at position r →
           ∃ ranges c,
             findRangesFromPosition db file position = Some ranges
             ∧ c ∈ ranges ∧ c ∈ others ∧ contains_at position c).
Proof.
  intros Hbucket. unfold findRangesFromPosition. rewrite Hbucket. split.
  - intros document Hin Hbad. by eapply ranges_of_documents_abort.
  - intros pre document post contains -> Hcontains Hne Hno Hothers.
    assert (ranges_of_documents db position (pre ++ document :: post) []
            = match omap (candidate_in db position) (pre ++ post) with
              | [] => None
              | ranges => Some ranges
              end) as Hresult.
    { rewrite (ranges_of_documents_skip db position pre post [] document contains)
        by (try done; by apply pick_candidate_None).
      by rewrite ranges_of_documents_all. }
    split; [exact Hresult|].
    intros other others r Hother Hcontains' Hr Hat.
    pose proof (pick_candidate_of position others) as Hinv.
    destruct (pick_candidate position others) as [c|] eqn:Hpick; simpl in Hinv;
      [|by destruct (Hinv r)].
    destruct Hinv as (Hin & Hc & _).
    assert (c ∈ omap (candidate_in db position) (pre ++ post)) as Hreturned.
    { apply list_elem_of_omap. exists other. split; [done|].
      unfold candidate_in. by rewrite Hcontains'. }
    rewrite Hresult.
    destruct (omap (candidate_in db position) (pre ++ post)) as [|c0 ranges];
      [by apply not_elem_of_nil in Hreturned|].
    by exists (c0 :: ranges), c.
Qed.


(** ** Termination of path resolution *)

(** The vertex reached from [id] along [n] next edges. *)
Fixpoint follow_next (db : JsonDatabase) (n : nat) (id : Id) : option Id :=
  match n with
  | O => Some id
  | S n =>
      match out_next (out db) !! id with
      | None => None
      | Some next => follow_next db n (vertex_id next)
      end
  end.

(** No vertex occurs twice on the chain of next edges from [start]. *)
Definition acyclic_from (db : JsonDatabase) (start : Id) : Prop :=
  ∀ i j a, i < j →
    follow_next db i start = Some a → follow_next db j start ≠ Some a.

Lemma follow_next_step (db : JsonDatabase) (n : nat) (start current : Id)
    (next : Vertex) :
  follow_next db n start = Some current →
  out_next (out db) !! current = Some next →
  follow_next db (S n) start = Some (vertex_id next).
Proof.
  revert start. induction n as [|n IH]; intros start; simpl.
  - intros [= ->] ->. done.
  - destruct (out_next (out db) !! start) as [v|]; [|done].
    intros H1 H2. exact (IH _ H1 H2).
Qed.

Lemma walk_more_fuel (db : JsonDatabase) (edges : gmap Id Vertex) (fuel more : nat)
    (currentId : Id) (trail : list PathEntry) (r : ResultPath) :
  walk db edges fuel currentId trail = Some r →
  walk db edges (fuel + more) currentId trail = Some r.
Proof.
  revert currentId trail. induction fuel as [|fuel IH]; intros currentId trail;
    simpl; [done|].
  destruct (edges !! currentId); [done|].
  destruct (out_next (out db) !! currentId); [|done]. apply IH.
Qed.

(** A walk that is still going after [fuel] turns has followed a next
    edge at each of them. *)
Lemma walk_None_chain (db : JsonDatabase) (edges : gmap Id Vertex) (fuel : nat)
    (currentId : Id) (trail : list PathEntry) :
  walk db edges fuel currentId trail = None →
  ∀ i, i < fuel →
    ∃ a, follow_next db i currentId = Some a ∧ is_Some (out_next (out db) !! a).
Proof.
  revert currentId trail. induction fuel as [|fuel IH]; intros currentId trail;
    simpl; [lia|].
  destruct (edges !! currentId); [done|].
  destruct (out_next (out db) !! currentId) as [next|] eqn:Hnext; [|done].
  intros Hwalk [|i] Hi; simpl.
  - exists currentId. by rewrite Hnext.
  - rewrite Hnext. eapply IH; [done|lia].
Qed.

Lemma chain_vertices (db : JsonDatabase) (start : Id) (n : nat) :
  acyclic_from db start →
  (∀ i, i < n →
     ∃ a, follow_next db i start = Some a ∧ is_Some (out_next (out db) !! a)) →
  ∃ l : list Id,
    length l = n ∧ NoDup l
    ∧ ∀ x, x ∈ l →
        x ∈ dom (out_next (out db)) ∧ ∃ i, i < n ∧ follow_next db i start = Some x.
Proof.
  intros Hacyclic. induction n as [|n IH]; intros Hchain.
  - exists []. split_and!; [done|constructor|]. intros x Hx.
    by apply not_elem_of_nil in Hx.
  - destruct IH as (l & Hlen & Hnodup & Hl); [intros i Hi; apply Hchain; lia|].
    destruct (Hchain n) as (a & Ha & Hdom); [lia|].
    exists (a :: l). split_and!; [simpl; lia| |].
    + constructor; [|done]. intros (_ & i & Hi & Hia)%Hl.
      by eapply (Hacyclic i n a).
    + intros x [->|Hx]%elem_of_cons.
      * split; [by apply elem_of_dom|]. exists n. split; [lia|done].
      * destruct (Hl x Hx) as (? & i & ? & ?). split; [done|]. exists i. split; [lia|done].
Qed.

Lemma walk_terminates (db : JsonDatabase) (edges : gmap Id Vertex) (start : Id)
    (trail : list PathEntry) :
  acyclic_from db start →
  is_Some (walk db edges (S (size (out_next (out db)))) start trail).
Proof.
  intros Hacyclic.
  destruct (walk db edges (S (size (out_next (out db)))) start trail) eqn:Hwalk;
    [done|].
  pose proof (walk_None_chain _ _ _ _ _ Hwalk) as Hchain.
  destruct (chain_vertices db start _ Hacyclic Hchain) as (l & Hlen & Hnodup & Hl).
  assert (size (list_to_set l : gset Z) ≤ size (dom (out_next (out db)))) as Hle.
  { apply subseteq_size. intros x Hx%elem_of_list_to_set. by apply Hl. }
  rewrite size_list_to_set, size_dom in Hle by done. lia.
Qed.

(** On a cycle of next edges through [start], every vertex has a next
    edge back onto the cycle. *)
Definition on_cycle (db : JsonDatabase) (start current : Id) : Prop :=
  (∃ j, follow_next db j start = Some current)
  ∧ (∃ k, follow_next db k current = Some start).

Lemma on_cycle_next (db : JsonDatabase) (start current : Id) (n : nat) :
  0 < n → follow_next db n start = Some start →
  on_cycle db start current →
  ∃ next, out_next (out db) !! current = Some next
          ∧ on_cycle db start (vertex_id next).
Proof.
  intros Hn Hloop [[j Hj] [k Hk]].
  assert (∃ k, follow_next db (S k) current = Some start) as [k' Hk'].
  { destruct k as [|k]; [|by exists k].
    simpl in Hk. injection Hk as ->.
    destruct n as [|n]; [lia|]. by exists n. }
  simpl in Hk'.
  destruct (out_next (out db) !! current) as [next|] eqn:Hnext; [|done].
  exists next. split; [done|]. split.
  - exists (S j). by eapply follow_next_step.
  - by exists k'.
Qed.

Lemma walk_on_cycle (db : JsonDatabase) (edges : gmap Id Vertex) (start : Id)
    (n fuel : nat) (current : Id) (trail : list PathEntry) :
  0 < n → follow_next db n start = Some start →
  (∀ k id, follow_next db k start = Some id → edges !! id = None) →
  on_cycle db start current →
  walk db edges fuel current trail = None.
Proof.
  intros Hn Hloop Hno. revert current trail.
  induction fuel as [|fuel IH]; intros current trail Hcur; simpl; [done|].
  destruct Hcur as [[j Hj] Hback].
  rewrite (Hno j current Hj).
  destruct (on_cycle_next db start current n Hn Hloop) as (next & -> & Hnext).
  { split; [by exists j|done]. }
  by apply IH.
Qed.

(** C8: from a start whose chain of next edges has no repeated vertex,
    path resolution returns, and one more turn than there are next edges
    is enough for it; from a start on a cycle of next edges none of whose
    vertices has an entry in the relation map, it never returns. *)
Theorem C8_path_resolution_terminates_unless_cyclic (db : JsonDatabase)
    (edges : gmap Id Vertex) (start : Id) :
  (acyclic_from db start →
   ∃ r, ∀ fuel, size (out_next (out db)) < fuel →
          getResultPath db fuel start edges = Ret r)
  ∧ (∀ n, 0 < n →
       follow_next db n start = Some start →
       (∀ k id, follow_next db k start = Some id → edges !! id = None) →
       ∀ fuel, getResultPath db fuel start edges = OutOfFuel).
Proof.
  unfold getResultPath. split.
  - intros Hacyclic.
    destruct (walk_terminates db edges start [] Hacyclic) as [r Hr].
    exists r. intros fuel Hfuel.
    replace fuel with (S (size (out_next (out db)))
                       + (fuel - S (size (out_next (out db))))) by lia.
    by rewrite (walk_more_fuel _ _ _ _ _ _ _ Hr).
  - intros n Hn Hloop Hno fuel.
    rewrite (walk_on_cycle db edges start n fuel start []); try done.
    split; by exists 0.
Qed.

(** ** Ingestion *)

Lemma load_app (pre post : list Element) (db : JsonDatabase) :
  load (pre ++ post) db = load pre db ≫= load post.
Proof. apply for_of_app. Qed.

Lemma load_cons (element : Element) (post : list Element) (db : JsonDatabase) :
  load (element :: post) db
  = match element with
    | vertex v => processVertex v db
    | edge e => processEdge e db
    | foreign => Throw UnexpectedElementType
    end ≫= load post.
Proof. done. Qed.










(** No record changes the forward maps of declarations and of
    implementations. *)
Lemma doProcessEdge_declaration_frame (label : EdgeLabels.t) (outV inV : Id)
    (property : option ItemEdgeProperties.t) (db db' : JsonDatabase) :
  doProcessEdge label outV inV property db = Ret db' →
  out_declaration (out db') = out_declaration (out db)
  ∧ out_implementation (out db') = out_implementation (out db).
Proof.
  unfold doProcessEdge.
  destruct (vertices_all (vertices db) !! outV) as [from|]; [|done].
  destruct (vertices_all (vertices db) !! inV) as [to|]; [|done].
  destruct db as [root vs [] ins idx].
  destruct label; try destruct (item_target property to);
    intros [= <-]; done.
Qed.

Lemma processEdge_declaration_frame (e : Edge) (db db' : JsonDatabase) :
  processEdge e db = Ret db' →
  out_declaration (out db') = out_declaration (out db)
  ∧ out_implementation (out db') = out_implementation (out db).
Proof.
  destruct e as [label outV inV property|label outV inVs property|label]; simpl.
  - apply doProcessEdge_declaration_frame.
  - intros Hloop.
    eapply (for_of_invariant
              (λ s, out_declaration (out s) = out_declaration (out db)
                    ∧ out_implementation (out s) = out_implementation (out db)));
      [|split; reflexivity|exact Hloop].
    intros s inV s' _ [H1 H2] Hstep.
    apply doProcessEdge_declaration_frame in Hstep as [-> ->]. done.
  - by intros [= <-].
Qed.

Lemma processVertex_out (v : Vertex) (db db' : JsonDatabase) :
  processVertex v db = Ret db' → out db' = out db.
Proof.
  unfold processVertex, processMetaData, doProcessDocument.
  destruct db as [root vs o ins idx].
  destruct v as [id projectRoot|id u c|id s e|id scheme identifier kind key|id label];
    simpl; repeat case_match; try done; by intros [= <-].
Qed.

Lemma load_declaration_frame (lines : list Element) (db db' : JsonDatabase) :
  load lines db = Ret db' →
  out_declaration (out db') = out_declaration (out db)
  ∧ out_implementation (out db') = out_implementation (out db).
Proof.
  intros Hload.
  eapply (for_of_invariant
            (λ s, out_declaration (out s) = out_declaration (out db)
                  ∧ out_implementation (out s) = out_implementation (out db)));
    [|split; reflexivity|exact Hload].
  intros s element s' _ [H1 H2] Hstep. destruct element as [v|e|]; [| |done].
  - apply processVertex_out in Hstep. by rewrite Hstep.
  - apply processEdge_declaration_frame in Hstep as [-> ->]. done.
Qed.

(** ** What a query keeps true of its accumulators

    A property of the accumulators that adding a location keeps, and that
    recording a moniker key not yet recorded keeps, holds of them
    throughout a query.  References adds locations of vertices only;
    declarations and definitions add whatever the item lists hold. *)

Section query_invariant.

Variable db : JsonDatabase.
Variable fuel : nat.
Variable P : QueryState → Prop.

Hypothesis P_addLocation :
  ∀ value s s', P s → addLocation db value s = Ret s' → P s'.
Hypothesis P_addLocation_item :
  ∀ element s s', P s → addLocation_item db element s = Ret s' → P s'.
Hypothesis P_mark_moniker :
  ∀ key s, P s → key ∉ s.(dedupMonikers) → P (mark_moniker key s).

Lemma resolveTargets_invariant (targetResult : Vertex) (s s' : QueryState) :
  P s → resolveTargets db targetResult s = Ret s' → P s'.
Proof using P_addLocation_item.
  unfold resolveTargets. destruct (item db targetResult) as [ranges|];
    [|by intros ? [= <-]].
  apply for_of_invariant. intros s0 element s0' _ Hs0. by apply P_addLocation_item.
Qed.

Lemma expand_targets_invariant (edges : gmap Id Vertex) (moniker : Vertex)
    (s s' : QueryState) :
  P s → expand_targets db fuel edges s moniker = Ret s' → P s'.
Proof using P_addLocation_item P_mark_moniker.
  unfold expand_targets. intros Hs.
  destruct (decide _) as [|Hfresh]; [by intros [= <-]|].
  pose proof (P_mark_moniker _ _ Hs Hfresh) as Hmarked.
  destruct (matching_monikers db (vertex_key moniker)) as [matchingMonikers|];
    [|by intros [= <-]].
  revert Hmarked. apply for_of_invariant. intros s1 matchingMoniker s1' _ Hs1.
  destruct (findVerticesForMoniker db matchingMoniker) as [vs|];
    [|by intros [= <-]].
  revert Hs1. apply for_of_invariant. intros s2 v s2' _ Hs2.
  intros (resultPath & _ & Hrest)%bind_Ret.
  destruct (result resultPath) as [[value ?]|]; [|by injection Hrest as <-].
  by eapply resolveTargets_invariant.
Qed.

Lemma _findTargets_invariant (edges : gmap Id Vertex) (range : Vertex)
    (s s' : QueryState) :
  P s → _findTargets db fuel edges s range = Ret s' → P s'.
Proof using P_addLocation_item P_mark_moniker.
  unfold _findTargets. intros Hs (resultPath & _ & Hrest)%bind_Ret.
  destruct (result resultPath) as [[value ?]|]; [|by injection Hrest as <-].
  apply bind_Ret in Hrest as (s1 & Hresolve & Hloop).
  eapply for_of_invariant; [| |exact Hloop].
  - intros s2 moniker s2' _. apply expand_targets_invariant.
  - by eapply resolveTargets_invariant.
Qed.

Lemma findTargets_state_invariant (edges : gmap Id Vertex) (uri : string)
    (position : Position) (s : QueryState) :
  P initial_state →
  findTargets_state db fuel edges uri position = Ret (Some s) → P s.
Proof using P_addLocation_item P_mark_moniker.
  unfold findTargets_state. intros Hinit.
  destruct (findRangesFromPosition _ _ _) as [ranges|]; [|done].
  intros (s' & Hloop & [= <-])%bind_Ret.
  eapply for_of_invariant; [|exact Hinit|exact Hloop].
  intros s1 range s1' _. apply _findTargets_invariant.
Qed.

Variable includeDeclaration : bool.

Lemma on_query_addLocation_invariant (value : Vertex) (st st' : ReferenceState) :
  P st.(query) → on_query (addLocation db value) st = Ret st' → P st'.(query).
Proof using P_addLocation.
  unfold on_query. intros Hst (s & Hadd & [= <-])%bind_Ret. simpl.
  by eapply P_addLocation.
Qed.

Lemma resolveReferenceResult_invariant (depth : nat) (referenceResult : Vertex)
    (st st' : ReferenceState) :
  P st.(query) →
  resolveReferenceResult db includeDeclaration depth referenceResult st = Ret st' →
  P st'.(query).
Proof using P_addLocation.
  revert referenceResult st st'.
  induction depth as [|depth IH]; intros referenceResult st st'; simpl; [done|].
  destruct (item db referenceResult) as [targets|]; [|by intros ? [= <-]].
  apply (for_of_invariant (λ st, P st.(query))).
  intros st0 target st0' _ Hst0.
  destruct target as [to|range|range|range|nested|link].
  - destruct (is_range to); [by apply on_query_addLocation_invariant|].
    by intros [= <-].
  - destruct includeDeclaration; [by apply on_query_addLocation_invariant|].
    by intros [= <-].
  - destruct includeDeclaration; [by apply on_query_addLocation_invariant|].
    by intros [= <-].
  - by apply on_query_addLocation_invariant.
  - by apply IH.
  - by intros [= <-].
Qed.

Lemma expand_references_invariant (moniker : Vertex) (st st' : ReferenceState) :
  P st.(query) →
  expand_references db fuel includeDeclaration st moniker = Ret st' →
  P st'.(query).
Proof using P_addLocation P_mark_moniker.
  unfold expand_references. intros Hst.
  destruct (decide _) as [|Hfresh]; [by intros [= <-]|].
  pose proof (P_mark_moniker _ _ Hst Hfresh) as Hmarked.
  destruct (matching_monikers db (vertex_key moniker)) as [matchingMonikers|];
    [|by intros [= <-]].
  apply (for_of_invariant (λ st, P st.(query))); [|exact Hmarked].
  intros st1 matchingMoniker st1' _ Hst1.
  destruct (findVerticesForMoniker db matchingMoniker) as [vs|];
    [|by intros [= <-]].
  apply (for_of_invariant (λ st, P st.(query))); [|exact Hst1].
  intros st2 v st2' _ Hst2 (resultPath & _ & Hrest)%bind_Ret.
  destruct (result resultPath) as [[value ?]|]; [|by injection Hrest as <-].
  by eapply resolveReferenceResult_invariant.
Qed.

Lemma moniker_loop_invariant (turns i : nat) (st st' : ReferenceState) :
  P st.(query) →
  moniker_loop db fuel includeDeclaration turns i st = Ret st' →
  P st'.(query).
Proof using P_addLocation P_mark_moniker.
  revert i st. induction turns as [|turns IH]; intros i st Hst; simpl; [done|].
  destruct (monikers st !! i) as [moniker|]; [|by intros [= <-]].
  intros (st1 & Hexpand & Hloop)%bind_Ret.
  eapply IH; [|exact Hloop]. by eapply expand_references_invariant.
Qed.

Lemma findReferences_invariant (range : Vertex) (s s' : QueryState) :
  P s → findReferences db fuel includeDeclaration s range = Ret s' → P s'.
Proof using P_addLocation P_mark_moniker.
  unfold findReferences. intros Hs (resultPath & _ & Hrest)%bind_Ret.
  destruct (result resultPath) as [[value ?]|]; [|by injection Hrest as <-].
  apply bind_Ret in Hrest as (st1 & Hresolve & Hrest).
  apply bind_Ret in Hrest as (st2 & Hloop & [= <-]).
  eapply moniker_loop_invariant; [|exact Hloop].
  by eapply resolveReferenceResult_invariant; [|exact Hresolve].
Qed.

Lemma references_state_invariant (uri : string) (position : Position)
    (s : QueryState) :
  P initial_state →
  references_state db fuel includeDeclaration uri position = Ret (Some s) → P s.
Proof using P_addLocation P_mark_moniker.
  unfold references_state. intros Hinit.
  destruct (findRangesFromPosition _ _ _) as [ranges|]; [|done].
  intros (s' & Hloop & [= <-])%bind_Ret.
  eapply for_of_invariant; [|exact Hinit|exact Hloop].
  intros s1 range s1' _. apply findReferences_invariant.
Qed.

End query_invariant.

(** ** Deduplication *)


(** The keys looked up in the moniker index are those of the dedup set,
    each looked up once. *)
Definition expanded_once (s : QueryState) : Prop :=
  NoDup s.(lookups) ∧ ∀ key, key ∈ s.(lookups) ↔ key ∈ s.(dedupMonikers).

Lemma push_location_cases (l : Location) (s : QueryState) :
  push_location l s = s
  ∨ (makeKey l ∉ dedupLocations s)
    ∧ push_location l s
      = {| locations := s.(locations) ++ [l];
           dedupLocations := {[makeKey l]} ∪ s.(dedupLocations);
           dedupMonikers := s.(dedupMonikers);
           lookups := s.(lookups) |}.
Proof. unfold push_location. destruct (decide _); auto. Qed.

Lemma addLocation_pushes (db : JsonDatabase) (value : Vertex) (s s' : QueryState) :
  addLocation db value s = Ret s' →
  ∃ document document_uri span,
    in_contains (in_ db) !! vertex_id value = Some document
    ∧ vertex_uri document = Some document_uri
    ∧ vertex_span value = Some span
    ∧ s' = push_location
             {| uri := Some (URI_normalize document_uri); range := span |} s.
Proof.
  unfold addLocation.
  destruct (in_contains (in_ db) !! vertex_id value) as [document|]; [|done].
  destruct (vertex_uri document) as [document_uri|] eqn:Huri; [|done].
  destruct (vertex_span value) as [span|] eqn:Hspan; [|done].
  intros [= <-]. by exists document, document_uri, span.
Qed.

Lemma addLocation_item_pushes (db : JsonDatabase) (element : ItemTarget)
    (s s' : QueryState) :
  addLocation_item db element s = Ret s' → ∃ l, s' = push_location l s.
Proof.
  destruct element as [to|range|range|range|nested|link]; simpl; try done;
    try (destruct (Range_is range); [|done];
         destruct (vertex_span range); [|done]; intros [= <-]; by eexists).
  intros (? & ? & ? & _ & _ & _ & ->)%addLocation_pushes. by eexists.
Qed.

Lemma addLocation_item_cases (db : JsonDatabase) (element : ItemTarget)
    (s s' : QueryState) :
  addLocation_item db element s = Ret s' →
  s' = s
  ∨ ∃ l, (makeKey l ∉ dedupLocations s)
         ∧ s' = {| locations := s.(locations) ++ [l];
                   dedupLocations := {[makeKey l]} ∪ s.(dedupLocations);
                   dedupMonikers := s.(dedupMonikers);
                   lookups := s.(lookups) |}.
Proof.
  intros [l ->]%addLocation_item_pushes.
  destruct (push_location_cases l s) as [->|[Hfresh ->]]; [by left|right].
  by exists l.
Qed.

Lemma addLocation_cases (db : JsonDatabase) (value : Vertex) (s s' : QueryState) :
  addLocation db value s = Ret s' →
  s' = s
  ∨ ∃ l, (makeKey l ∉ dedupLocations s)
         ∧ s' = {| locations := s.(locations) ++ [l];
                   dedupLocations := {[makeKey l]} ∪ s.(dedupLocations);
                   dedupMonikers := s.(dedupMonikers);
                   lookups := s.(lookups) |}.
Proof.
  intros (document & document_uri & span & _ & _ & _ & ->)%addLocation_pushes.
  destruct (push_location_cases
              {| uri := Some (URI_normalize document_uri); range := span |} s)
    as [->|[Hfresh ->]]; [by left|right].
  by eexists.
Qed.






Lemma initial_state_expanded_once : expanded_once initial_state.
Proof.
  split; [constructor|]. intros key. simpl.
  by rewrite elem_of_nil, elem_of_empty.
Qed.

Lemma addLocation_expanded_once (db : JsonDatabase) (value : Vertex)
    (s s' : QueryState) :
  expanded_once s → addLocation db value s = Ret s' → expanded_once s'.
Proof.
  by intros Hs [->|(l & Hfresh & ->)]%addLocation_cases.
Qed.

Lemma addLocation_item_expanded_once (db : JsonDatabase) (element : ItemTarget)
    (s s' : QueryState) :
  expanded_once s → addLocation_item db element s = Ret s' → expanded_once s'.
Proof.
  by intros Hs [->|(l & Hfresh & ->)]%addLocation_item_cases.
Qed.

Lemma mark_moniker_expanded_once (key : option string) (s : QueryState) :
  expanded_once s → key ∉ s.(dedupMonikers) → expanded_once (mark_moniker key s).
Proof.
  intros [Hnodup Hkeys] Hfresh. split; simpl.
  - apply NoDup_app. split_and!; [done| |apply NoDup_singleton].
    intros k Hk ->%list_elem_of_singleton. by apply Hfresh, Hkeys.
  - intros k. rewrite elem_of_app, list_elem_of_singleton, elem_of_union,
      elem_of_singleton, Hkeys. tauto.
Qed.


(** C7: in one declarations, definitions or references query, no moniker
    key is looked up twice in the moniker index, and the keys looked up
    are those recorded in the dedup set of the query. *)
Theorem C7_moniker_key_is_expanded_once (db : JsonDatabase) (fuel : nat)
    (uri : string) (position : Position) :
  (∀ edges s,
     findTargets_state db fuel edges uri position = Ret (Some s) →
     NoDup s.(lookups) ∧ ∀ key, key ∈ s.(lookups) ↔ key ∈ s.(dedupMonikers))
  ∧ (∀ includeDeclaration s,
       references_state db fuel includeDeclaration uri position = Ret (Some s) →
       NoDup s.(lookups) ∧ ∀ key, key ∈ s.(lookups) ↔ key ∈ s.(dedupMonikers)).
Proof.
  split.
  - intros edges s Hstate.
    eapply (findTargets_state_invariant db fuel expanded_once); [..|exact Hstate];
      eauto using addLocation_item_expanded_once, mark_moniker_expanded_once,
        initial_state_expanded_once.
  - intros includeDeclaration s Hstate.
    eapply (references_state_invariant db fuel expanded_once); [..|exact Hstate];
      eauto using addLocation_expanded_once, mark_moniker_expanded_once,
        initial_state_expanded_once.
Qed.

Lemma findTargets_shape (db : JsonDatabase) (fuel : nat) (edges : gmap Id Vertex)
    (uri : string) (position : Position) (r : Targets) :
  findTargets db fuel edges uri position = Ret r →
  match r with
  | undefined => findRangesFromPosition db (URI_normalize uri) position = None
  | one_location _ => False
  | location_array _ =>
      is_Some (findRangesFromPosition db (URI_normalize uri) position)
  end.
Proof.
  unfold findTargets, findTargets_state.
  destruct (findRangesFromPosition _ _ _) as [ranges|]; simpl.
  - intros (s & Hs & Hr)%bind_Ret. apply bind_Ret in Hs as (s' & _ & [= <-]).
    by injection Hr as <-.
  - by intros [= <-].
Qed.

(** C10: what declarations and definitions return is the absent result,
    exactly when position resolution finds no range, or else an array;
    it is never a single location.  References returns the absent result
    in the same case and a list otherwise. *)
Theorem C10_queries_return_absent_or_array (db : JsonDatabase) (fuel : nat)
    (uri : string) (position : Position) :
  (∀ r, declarations db fuel uri position = Ret r →
        match r with
        | undefined => findRangesFromPosition db (URI_normalize uri) position = None
        | one_location _ => False
        | location_array _ =>
            is_Some (findRangesFromPosition db (URI_normalize uri) position)
        end)
  ∧ (∀ r, definitions db fuel uri position = Ret r →
          match r with
          | undefined => findRangesFromPosition db (URI_normalize uri) position = None
          | one_location _ => False
          | location_array _ =>
              is_Some (findRangesFromPosition db (URI_normalize uri) position)
          end)
  ∧ (∀ includeDeclaration r,
       references db fuel includeDeclaration uri position = Ret r →
       r = None ↔ findRangesFromPosition db (URI_normalize uri) position = None).
Proof.
  split_and!; [apply findTargets_shape..|].
  intros includeDeclaration r. unfold references, references_state.
  destruct (findRangesFromPosition _ _ _) as [ranges|]; simpl.
  - intros (s & Hs & Hr)%bind_Ret. apply bind_Ret in Hs as (s' & _ & [= <-]).
    injection Hr as <-. done.
  - by intros [= <-].
Qed.

(** ** Declarations *)

(** A result that path resolution returns is an entry of the relation
    map. *)
Lemma walk_result (db : JsonDatabase) (edges : gmap Id Vertex) (fuel : nat)
    (currentId : Id) (trail : list PathEntry) (r : ResultPath)
    (value : Vertex) (moniker : option Vertex) :
  walk db edges fuel currentId trail = Some r →
  r.(result) = Some (value, moniker) →
  ∃ id, edges !! id = Some value ∧ out_moniker (out db) !! id = moniker.
Proof.
  revert currentId trail. induction fuel as [|fuel IH]; intros currentId trail;
    simpl; [done|].
  destruct (edges !! currentId) as [v|] eqn:Hv.
  - intros [= <-] [= <- <-]. by exists currentId.
  - destruct (out_next (out db) !! currentId) as [next|]; [apply IH|].
    by intros [= <-].
Qed.

Lemma findTargets_no_edges (db : JsonDatabase) (fuel : nat) (uri : string)
    (position : Position) (r : Targets) :
  findTargets db fuel ∅ uri position = Ret r →
  r = undefined ∨ r = location_array [].
Proof.
  unfold findTargets, findTargets_state.
  destruct (findRangesFromPosition _ _ _) as [ranges|]; simpl;
    [|intros [= <-]; by left].
  intros (s & Hs & Hr)%bind_Ret. apply bind_Ret in Hs as (s' & Hloop & [= <-]).
  injection Hr as <-. right. f_equal.
  enough (s' = initial_state) as -> by done.
  eapply (for_of_invariant (λ s, s = initial_state)); [|reflexivity|exact Hloop].
  intros s range s1 _ ->. unfold _findTargets, getResultPath.
  intros (resultPath & Hpath & Hrest)%bind_Ret.
  destruct (walk db ∅ fuel (vertex_id range) []) as [r|] eqn:Hwalk; [|done].
  injection Hpath as ->.
  destruct (result resultPath) as [[value moniker]|] eqn:Hresult;
    [|by injection Hrest as <-].
  destruct (walk_result _ _ _ _ _ _ _ _ Hwalk Hresult) as (id & Hid & _).
  by rewrite lookup_empty in Hid.
Qed.

(** C1, where the code departs from it: however a store is loaded, its
    forward maps of declarations and of implementations stay empty, an
    edge with either label being passed over; so a declarations query
    returns no location on any loaded store. *)
Theorem C1_declaration_edges_are_not_stored (lines : list Element)
    (db : JsonDatabase) :
  load lines empty_database = Ret db →
  out_declaration (out db) = ∅
  ∧ out_implementation (out db) = ∅
  ∧ ∀ fuel uri position r,
      declarations db fuel uri position = Ret r →
      r = undefined ∨ r = location_array [].
Proof.
  intros [Hdeclaration Himplementation]%load_declaration_frame.
  split_and!; [done..|].
  intros fuel uri position r. unfold declarations. rewrite Hdeclaration.
  apply findTargets_no_edges.
Qed.

(** ** All exported definitions *)

Lemma append_String (c : Ascii.ascii) (s t : string) :
  (String c s ++ t)%string = String c (s ++ t)%string.
Proof. done. Qed.

Lemma endsWith_unfold (s searchString : string) :
  endsWith s searchString
  = String.eqb s searchString
    || match s with
       | EmptyString => false
       | String _ s' => endsWith s' searchString
       end.
Proof. by destruct s. Qed.

Lemma includes_unfold (s searchString : string) :
  includes s searchString
  = String.prefix searchString s
    || match s with
       | EmptyString => false
       | String _ s' => includes s' searchString
       end.
Proof. by destruct s. Qed.

Lemma endsWith_spec (s searchString : string) :
  endsWith s searchString = true ↔ ∃ before, s = (before ++ searchString)%string.
Proof.
  induction s as [|c s IH]; rewrite endsWith_unfold.
  - rewrite orb_false_r, String.eqb_eq. split.
    + intros <-. by exists EmptyString.
    + intros [[|c before] Heq]; [done|discriminate].
  - rewrite orb_true_iff, String.eqb_eq, IH. split.
    + intros [<-|[before ->]]; [by exists EmptyString|by exists (String c before)].
    + intros [[|c' before] Heq]; [by left|right].
      rewrite append_String in Heq. injection Heq as <- ->. by exists before.
Qed.

Lemma prefix_spec (s1 s2 : string) :
  String.prefix s1 s2 = true ↔ ∃ after, s2 = (s1 ++ after)%string.
Proof.
  revert s2. induction s1 as [|c s1 IH]; intros [|c' s2]; simpl.
  - split; [by exists EmptyString|done].
  - split; [by exists (String c' s2)|done].
  - split; [done|]. intros [after Heq]. by rewrite append_String in Heq.
  - destruct (Ascii.ascii_dec c c') as [<-|Hne].
    + rewrite IH. split; intros [after Heq]; exists after;
        rewrite append_String in *; congruence.
    + split; [done|]. intros [after Heq]. rewrite append_String in Heq. congruence.
Qed.

Lemma includes_spec (s searchString : string) :
  includes s searchString = true
  ↔ ∃ before after, s = (before ++ searchString ++ after)%string.
Proof.
  induction s as [|c s IH]; rewrite includes_unfold.
  - rewrite orb_false_r, prefix_spec. split.
    + intros [after ->]. by exists EmptyString, after.
    + intros ([|c before] & after & Heq); [by exists after|discriminate].
  - rewrite orb_true_iff, prefix_spec, IH. split.
    + intros [[after ->]|(before & after & ->)].
      * by exists EmptyString, after.
      * by exists (String c before), after.
    + intros ([|c' before] & after & Heq); [left; by exists after|right].
      rewrite append_String in Heq. injection Heq as <- ->. by exists before, after.
Qed.

(** [l] is one of the locations that the definitions query at the start
    of the range [item] of [document] returns, and the most specific
    moniker of [item] is one [allDefinitions] keeps. *)
Definition exported_definition_site (db : JsonDatabase) (fuel : nat)
    (document item : Vertex) (l : Location) : Prop :=
  ∃ id item_start item_end resultPath moniker identifier document_uri found,
    item = Range id item_start item_end
    ∧ getResultPath db fuel id (out_definition (out db)) = Ret resultPath
    ∧ getMostSpecificMoniker resultPath = Some moniker
    ∧ vertex_kind moniker = Some MonikerKind.export
    ∧ vertex_identifier moniker = Some identifier
    ∧ endsWith identifier "." = true
    ∧ includes identifier "`<constructor>`" = false
    ∧ includes identifier "#getDerivedStateFromProps()" = false
    ∧ includes identifier "#propTypes" = false
    ∧ vertex_uri document = Some document_uri
    ∧ definitions db fuel document_uri item_start = Ret (location_array found)
    ∧ l ∈ found.

Lemma is_exported_definition_true (moniker : Vertex) :
  is_exported_definition moniker = true →
  ∃ identifier,
    vertex_kind moniker = Some MonikerKind.export
    ∧ vertex_identifier moniker = Some identifier
    ∧ endsWith identifier "." = true
    ∧ includes identifier "`<constructor>`" = false
    ∧ includes identifier "#getDerivedStateFromProps()" = false
    ∧ includes identifier "#propTypes" = false.
Proof.
  destruct moniker as [| | |id scheme identifier [[| |]|] key|]; try done.
  simpl. rewrite andb_true_iff, negb_true_iff, !orb_false_iff.
  intros (? & (? & ?) & ?). by exists identifier.
Qed.

Lemma collect_definitions_sites (db : JsonDatabase) (fuel : nat)
    (document item : Vertex) (results results' : list Location) :
  collect_definitions db fuel document results item = Ret results' →
  ∀ l, l ∈ results' →
       l ∈ results ∨ exported_definition_site db fuel document item l.
Proof.
  unfold collect_definitions.
  destruct item as [| |id item_start item_end| |]; try by intros [= <-]; auto.
  intros (resultPath & Hpath & Hrest)%bind_Ret.
  destruct (getMostSpecificMoniker resultPath) as [moniker|] eqn:Hmoniker;
    [|injection Hrest as <-; auto].
  destruct (is_exported_definition moniker) eqn:Hkept;
    [|injection Hrest as <-; auto].
  apply is_exported_definition_true in Hkept
    as (identifier & Hkind & Hidentifier & Hdot & Hc & Hg & Hp).
  destruct (vertex_uri document) as [document_uri|] eqn:Huri; [|done].
  apply bind_Ret in Hrest as (found & Hfound & Hrest).
  pose proof (findTargets_shape _ _ _ _ _ _ Hfound) as Hshape.
  destruct found as [|single|found]; [injection Hrest as <-; auto|done|].
  injection Hrest as <-. intros l [Hl|Hl]%elem_of_app; [by left|right].
  by exists id, item_start, item_end, resultPath, moniker, identifier,
    document_uri, found.
Qed.

Lemma definitions_of_documents_sites (db : JsonDatabase) (fuel : nat)
    (docs : list Vertex) (results results' : list Location) :
  definitions_of_documents db fuel docs results = Ret (Some results') →
  ∀ l, l ∈ results' →
       l ∈ results
       ∨ ∃ document contains item,
           document ∈ docs
           ∧ out_contains (out db) !! vertex_id document = Some contains
           ∧ item ∈ contains
           ∧ exported_definition_site db fuel document item l.
Proof.
  revert results. induction docs as [|document docs IH]; intros results; simpl.
  - intros [= <-]. auto.
  - destruct (out_contains (out db) !! vertex_id document)
      as [[|first contains]|] eqn:Hcontains; [done| |done].
    intros (results1 & Hloop & Hrest)%bind_Ret l Hl.
    assert (∀ l, l ∈ results1 →
                 l ∈ results
                 ∨ ∃ item, item ∈ first :: contains
                           ∧ exported_definition_site db fuel document item l)
      as Hinner.
    { eapply (for_of_invariant
                (λ acc, ∀ l, l ∈ acc →
                   l ∈ results
                   ∨ ∃ item, item ∈ first :: contains
                             ∧ exported_definition_site db fuel document item l));
        [|by left|exact Hloop].
      intros acc item acc' Hitem Hacc Hstep l' Hl'.
      destruct (collect_definitions_sites _ _ _ _ _ _ Hstep l' Hl') as [?|?];
        [by apply Hacc|right; by exists item]. }
    destruct (IH _ Hrest l Hl) as [Hl1|(d & c & item & Hd & Hc & Hitem & Hsite)].
    + destruct (Hinner l Hl1) as [?|(item & Hitem & Hsite)]; [by left|right].
      exists document, (first :: contains), item.
      split_and!; [by left|done..].
    + right. exists d, c, item. split_and!; [by right|done..].
Qed.

(** C5: every location that [allDefinitions] returns for a uri has the
    normalised uri, and is returned by the definitions query at the start
    of a range contained in a document instance of that uri, a range
    whose most specific moniker is of kind export with an identifier that
    ends in a dot and includes none of the three markers. *)
Theorem C5_allDefinitions_keeps_exported_definitions_of_the_document
    (db : JsonDatabase) (fuel : nat) (file : string) (results : list Location)
    (l : Location) :
  allDefinitions db fuel file = Ret (Some results) →
  l ∈ results →
  l.(uri) = Some (URI_normalize file)
  ∧ ∃ bucket document contains item,
      indices_documents (indices db) !! URI_normalize file = Some bucket
      ∧ document ∈ bucket.(documents)
      ∧ out_contains (out db) !! vertex_id document = Some contains
      ∧ item ∈ contains
      ∧ exported_definition_site db fuel document item l.
Proof.
  unfold allDefinitions.
  destruct (indices_documents (indices db) !! URI_normalize file)
    as [bucket|] eqn:Hbucket; [|done].
  intros (all & Hall & Hrest)%bind_Ret.
  destruct all as [[|first all]|]; [done| |done].
  injection Hrest as <-. intros [Huri Hl]%list_elem_of_filter.
  split; [exact Huri|].
  destruct (definitions_of_documents_sites _ _ _ _ _ Hall l Hl)
    as [Hnil|(document & contains & item & ? & ? & ? & ?)];
    [by apply not_elem_of_nil in Hnil|].
  by exists bucket, document, contains, item.
Qed.

(** ** More on ingestion: edges *)

Lemma push_at_lookup {K : Type} `{Countable K} {A : Type} (k : K) (x : A)
    (m : gmap K (list A)) :
  push_at k x m !! k = Some (default [] (m !! k) ++ [x]).
Proof.
  unfold push_at. destruct (m !! k) as [values|] eqn:Hk; simpl;
    by rewrite lookup_insert_eq.
Qed.

Lemma push_at_lookup_ne {K : Type} `{Countable K} {A : Type} (k k' : K) (x : A)
    (m : gmap K (list A)) :
  k ≠ k' → push_at k x m !! k' = m !! k'.
Proof.
  intros Hne. unfold push_at. destruct (m !! k); by rewrite lookup_insert_ne.
Qed.

(** X1: An edge is refused when one of its endpoints is not a vertex loaded
    before it, the source being looked up first. *)
Theorem doProcessEdge_requires_both_endpoints (label : EdgeLabels.t)
    (outV inV : Id) (property : option ItemEdgeProperties.t) (db : JsonDatabase) :
  (vertices_all (vertices db) !! outV = None →
   doProcessEdge label outV inV property db = Throw (NoVertexFound outV))
  ∧ (is_Some (vertices_all (vertices db) !! outV) →
     vertices_all (vertices db) !! inV = None →
     doProcessEdge label outV inV property db = Throw (NoVertexFound inV)).
Proof.
  unfold doProcessEdge. split.
  - by intros ->.
  - by intros [from ->] ->.
Qed.

(** [field] is the forward map in which an edge labelled [label] from
    [from] to [to] is stored, under the id of [from]. *)
Definition stored_in (db : JsonDatabase) (outV inV : Id)
    (property : option ItemEdgeProperties.t) (from to : Vertex)
    (label : EdgeLabels.t) (field : Out → gmap Id Vertex) : Prop :=
  ∃ db', doProcessEdge label outV inV property db = Ret db'
         ∧ field (out db') = <[vertex_id from := to]> (field (out db)).

(** X2: The labels that do have a case in [doProcessEdge]: each stores the
    target in the forward map of its own relation, under the id of the
    source, replacing what was stored there. *)
Theorem doProcessEdge_stores_target_in_own_map (outV inV : Id)
    (property : option ItemEdgeProperties.t) (db : JsonDatabase)
    (from to : Vertex) :
  vertices_all (vertices db) !! outV = Some from →
  vertices_all (vertices db) !! inV = Some to →
  let stored := stored_in db outV inV property from to in
  stored EdgeLabels.next out_next
  ∧ stored EdgeLabels.textDocument_documentSymbol out_documentSymbol
  ∧ stored EdgeLabels.textDocument_foldingRange out_foldingRange
  ∧ stored EdgeLabels.textDocument_documentLink out_documentLink
  ∧ stored EdgeLabels.textDocument_diagnostic out_diagnostic
  ∧ stored EdgeLabels.textDocument_definition out_definition
  ∧ stored EdgeLabels.textDocument_typeDefinition out_typeDefinition
  ∧ stored EdgeLabels.textDocument_hover out_hover
  ∧ stored EdgeLabels.textDocument_references out_references.
Proof.
  intros Hfrom Hto. unfold stored_in, doProcessEdge. rewrite Hfrom, Hto.
  destruct db as [root vs [] ins idx]. simpl.
  split_and!; eexists; split; reflexivity.
Qed.

(** X3: A contains edge appends the target to the list of the source, and
    makes the source the owner of the target. *)
Theorem contains_edge_is_stored_both_ways (outV inV : Id)
    (property : option ItemEdgeProperties.t) (db : JsonDatabase)
    (from to : Vertex) :
  vertices_all (vertices db) !! outV = Some from →
  vertices_all (vertices db) !! inV = Some to →
  ∃ db', doProcessEdge EdgeLabels.contains outV inV property db = Ret db'
         ∧ out_contains (out db') !! vertex_id from
           = Some (default [] (out_contains (out db) !! vertex_id from) ++ [to])
         ∧ in_contains (in_ db') !! vertex_id to = Some from
         ∧ (∀ id, id ≠ vertex_id from →
                  out_contains (out db') !! id = out_contains (out db) !! id)
         ∧ (∀ id, id ≠ vertex_id to →
                  in_contains (in_ db') !! id = in_contains (in_ db) !! id).
Proof.
  intros Hfrom Hto. unfold doProcessEdge. rewrite Hfrom, Hto.
  destruct db as [root vs [] [] idx]. simpl.
  eexists. split; [reflexivity|]. simpl. split_and!.
  - apply push_at_lookup.
  - apply lookup_insert_eq.
  - intros id Hid. by apply push_at_lookup_ne.
  - intros id Hid. by apply lookup_insert_ne.
Qed.

(** X4: A moniker edge makes the target the moniker of the source, and adds
    the source to the vertices that [findVerticesForMoniker] returns for
    the target. *)
Theorem moniker_edge_is_stored_both_ways (outV inV : Id)
    (property : option ItemEdgeProperties.t) (db : JsonDatabase)
    (from to : Vertex) :
  vertices_all (vertices db) !! outV = Some from →
  vertices_all (vertices db) !! inV = Some to →
  ∃ db', doProcessEdge EdgeLabels.moniker outV inV property db = Ret db'
         ∧ out_moniker (out db') !! vertex_id from = Some to
         ∧ findVerticesForMoniker db' to
           = Some (default [] (findVerticesForMoniker db to) ++ [from]).
Proof.
  intros Hfrom Hto. unfold doProcessEdge, findVerticesForMoniker.
  rewrite Hfrom, Hto. destruct db as [root vs [] [] idx]. simpl.
  eexists. split; [reflexivity|]. simpl. split; apply lookup_insert_eq.
Qed.

(** X5: An item edge appends one target to the list of the source: the
    vertex itself when the edge has no property, the vertex tagged with
    the property when it is one of the five known ones; with any other
    property the store is left as it is. *)
Theorem item_edge_appends_target (outV inV : Id)
    (property : option ItemEdgeProperties.t) (db : JsonDatabase)
    (from to : Vertex) :
  vertices_all (vertices db) !! outV = Some from →
  vertices_all (vertices db) !! inV = Some to →
  match item_target property to with
  | Some target =>
      ∃ db', doProcessEdge EdgeLabels.item outV inV property db = Ret db'
             ∧ out_item (out db') !! vertex_id from
               = Some (default [] (out_item (out db) !! vertex_id from) ++ [target])
             ∧ (property = None → target = bare to)
  | None =>
      (∃ name, property = Some (ItemEdgeProperties.unlisted name))
      ∧ doProcessEdge EdgeLabels.item outV inV property db = Ret db
  end.
Proof.
  intros Hfrom Hto. unfold doProcessEdge. rewrite Hfrom, Hto.
  destruct (item_target property to) as [target|] eqn:Htarget.
  - destruct db as [root vs [] ins idx]. simpl.
    eexists. split; [reflexivity|]. simpl. split; [apply push_at_lookup|].
    intros ->. simpl in Htarget. congruence.
  - split; [|done]. destruct property as [[| | | | |name]|]; try done.
    by exists name.
Qed.

(** ** More on ingestion: vertices and indices *)

Lemma vertex_id_ingested (v : Vertex) : vertex_id (ingested v) = vertex_id v.
Proof. destruct v; simpl; try done. by case_bool_decide. Qed.

Lemma processVertex_vertices_all (v : Vertex) (db db' : JsonDatabase) :
  processVertex v db = Ret db' →
  vertices_all (vertices db')
  = <[vertex_id v := ingested v]> (vertices_all (vertices db)).
Proof.
  rewrite <- vertex_id_ingested.
  unfold processVertex, processMetaData, doProcessDocument.
  destruct db as [root [] o ins []].
  destruct (ingested v) as [id r|id u c|id s e|id scheme identifier kind key|id label];
    simpl; repeat case_match; try done; by intros [= <-].
Qed.

Lemma doProcessEdge_frame (label : EdgeLabels.t) (outV inV : Id)
    (property : option ItemEdgeProperties.t) (db db' : JsonDatabase) :
  doProcessEdge label outV inV property db = Ret db' →
  vertices db' = vertices db ∧ indices db' = indices db
  ∧ workspaceRoot db' = workspaceRoot db.
Proof.
  unfold doProcessEdge.
  destruct (vertices_all (vertices db) !! outV) as [from|]; [|done].
  destruct (vertices_all (vertices db) !! inV) as [to|]; [|done].
  destruct db as [root vs [] [] idx].
  destruct label; try destruct (item_target property to);
    intros [= <-]; done.
Qed.

Lemma processEdge_frame (e : Edge) (db db' : JsonDatabase) :
  processEdge e db = Ret db' →
  vertices db' = vertices db ∧ indices db' = indices db
  ∧ workspaceRoot db' = workspaceRoot db.
Proof.
  destruct e as [label outV inV property|label outV inVs property|label]; simpl.
  - apply doProcessEdge_frame.
  - intros Hloop.
    eapply (for_of_invariant
              (λ s, vertices s = vertices db ∧ indices s = indices db
                    ∧ workspaceRoot s = workspaceRoot db));
      [|done|exact Hloop].
    intros s inV s' _ (H1 & H2 & H3) Hstep.
    apply doProcessEdge_frame in Hstep as (-> & -> & ->). done.
  - by intros [= <-].
Qed.

Lemma processVertex_in (v : Vertex) (db db' : JsonDatabase) :
  processVertex v db = Ret db' → in_ db' = in_ db.
Proof.
  unfold processVertex, processMetaData, doProcessDocument.
  destruct db as [root vs o ins idx].
  destruct v as [id projectRoot|id u c|id s e|id scheme identifier kind key|id label];
    simpl; repeat case_match; try done; by intros [= <-].
Qed.

(** A property of the store that every vertex record and every edge
    record keeps is kept by a load. *)
Lemma load_invariant (P : JsonDatabase → Prop) :
  (∀ v db db', P db → processVertex v db = Ret db' → P db') →
  (∀ e db db', P db → processEdge e db = Ret db' → P db') →
  ∀ lines db db', P db → load lines db = Ret db' → P db'.
Proof.
  intros Hvertex Hedge lines db db' Hdb Hload.
  eapply (for_of_invariant P); [|exact Hdb|exact Hload].
  intros s element s' _ Hs. destruct element as [v|e|]; [| |done].
  - by apply Hvertex.
  - by apply Hedge.
Qed.

(** X6: A vertex record is stored in the table of all vertices under its own
    id, as it is after ingestion (a document with its uri normalised, a
    moniker that is not local with its key), replacing a vertex stored
    under that id before. *)
Theorem processVertex_stores_vertex_under_its_id (v : Vertex)
    (db db' : JsonDatabase) :
  processVertex v db = Ret db' →
  vertices_all (vertices db') !! vertex_id v = Some (ingested v)
  ∧ ∀ id, id ≠ vertex_id v →
          vertices_all (vertices db') !! id = vertices_all (vertices db) !! id.
Proof.
  intros ->%processVertex_vertices_all. split.
  - apply lookup_insert_eq.
  - intros id Hid. by apply lookup_insert_ne.
Qed.

(** X7: A vertex record changes no edge map, and an edge record changes
    neither the vertex tables, nor the indices, nor the workspace
    root. *)
Theorem records_change_their_own_tables_only (db db' : JsonDatabase) :
  (∀ v, processVertex v db = Ret db' → out db' = out db ∧ in_ db' = in_ db)
  ∧ (∀ e, processEdge e db = Ret db' →
          vertices db' = vertices db ∧ indices db' = indices db
          ∧ workspaceRoot db' = workspaceRoot db).
Proof.
  split.
  - intros v Hv. split; [by eapply processVertex_out|by eapply processVertex_in].
  - intros e. apply processEdge_frame.
Qed.

(** Every vertex of a store is filed under its own id. *)
Definition keyed_by_id (db : JsonDatabase) : Prop :=
  ∀ id v, vertices_all (vertices db) !! id = Some v → vertex_id v = id.

(** X8: In a loaded store every vertex is filed under its own id, so the
    [from.id] and [to.id] that [doProcessEdge] uses as keys are the
    [outV] and [inV] of the edge. *)
Theorem load_files_vertices_under_their_ids (lines : list Element)
    (db : JsonDatabase) :
  load lines empty_database = Ret db → keyed_by_id db.
Proof.
  apply (load_invariant keyed_by_id).
  - intros v s s' Hs Hv%processVertex_vertices_all id v'. rewrite Hv.
    destruct (decide (id = vertex_id v)) as [->|Hne].
    + rewrite lookup_insert_eq. intros [= <-]. apply vertex_id_ingested.
    + rewrite lookup_insert_ne by done. apply Hs.
  - intros e s s' Hs (Hvs & _)%processEdge_frame. unfold keyed_by_id.
    by rewrite Hvs.
  - intros id v. simpl. by rewrite lookup_empty.
Qed.

(** Every moniker of the moniker index is filed under its own key, the
    digest of its scheme and identifier, and is not local. *)
Definition moniker_index_ok (db : JsonDatabase) : Prop :=
  ∀ key bucket m,
    indices_monikers (indices db) !! key = Some bucket → m ∈ bucket →
    ∃ id scheme identifier kind,
      m = Moniker id scheme identifier kind (Some key)
      ∧ kind ≠ Some MonikerKind.local
      ∧ key = moniker_key scheme identifier.

Lemma processVertex_indices_monikers (v : Vertex) (db db' : JsonDatabase) :
  processVertex v db = Ret db' →
  indices_monikers (indices db') = indices_monikers (indices db)
  ∨ ∃ id scheme identifier kind,
      kind ≠ Some MonikerKind.local
      ∧ v = Moniker id scheme identifier kind (vertex_key v)
      ∧ indices_monikers (indices db')
        = <[moniker_key scheme identifier :=
              default [] (indices_monikers (indices db)
                            !! moniker_key scheme identifier)
              ++ [Moniker id scheme identifier kind
                    (Some (moniker_key scheme identifier))]]>
            (indices_monikers (indices db)).
Proof.
  unfold processVertex, processMetaData, doProcessDocument.
  destruct db as [root vs o ins []].
  destruct v as [id r|id u c|id s e|id scheme identifier kind key|id label];
    simpl.
  - repeat case_match; try done; intros [= <-]; by left.
  - intros [= <-]. by left.
  - intros [= <-]. by left.
  - case_bool_decide as Hkind; simpl.
    + rewrite bool_decide_eq_true_2 by done. intros [= <-]. right.
      by exists id, scheme, identifier, kind.
    + rewrite bool_decide_eq_false_2 by auto. intros [= <-]. by left.
  - repeat case_match; try done; intros [= <-]; by left.
Qed.

(** X9: The moniker index of a loaded store: a moniker is in the bucket of
    a key only if the key is the digest of its scheme and identifier,
    the moniker carries that key, and its kind is not local. *)
Theorem load_indexes_monikers_by_key (lines : list Element) (db : JsonDatabase) :
  load lines empty_database = Ret db → moniker_index_ok db.
Proof.
  apply (load_invariant moniker_index_ok).
  - intros v s s' Hs [Hsame|(id & scheme & identifier & kind & Hkind & _ & Hnew)]
      %processVertex_indices_monikers key bucket m.
    + rewrite Hsame. apply Hs.
    + rewrite Hnew.
      destruct (decide (key = moniker_key scheme identifier)) as [->|Hne].
      * rewrite lookup_insert_eq. intros [= <-] [Hm|Hm]%elem_of_app.
        -- destruct (indices_monikers (indices s) !! moniker_key scheme identifier)
             as [old|] eqn:Hold; simpl in Hm; [by eapply Hs|].
           by apply not_elem_of_nil in Hm.
        -- apply list_elem_of_singleton in Hm as ->.
           by exists id, scheme, identifier, kind.
      * rewrite lookup_insert_ne by done. apply Hs.
  - intros e s s' Hs (_ & Hidx & _)%processEdge_frame. unfold moniker_index_ok.
    by rewrite Hidx.
  - intros key bucket m. simpl. by rewrite lookup_empty.
Qed.

(** Every bucket of the document index holds at least one document, all
    of them document vertices with the uri of the bucket, a normalised
    one; and its hash is the digest of the contents of the first. *)
Definition document_index_ok (db : JsonDatabase) : Prop :=
  ∀ u bucket,
    indices_documents (indices db) !! u = Some bucket →
    (∀ d, d ∈ bucket.(documents) →
          ∃ id raw c, d = Document id u c ∧ u = URI_normalize raw)
    ∧ ∃ id c rest,
        bucket.(documents) = Document id u c :: rest
        ∧ bucket.(hash) = md5_base64 (default "No content provided." c).

Lemma processVertex_indices_documents (v : Vertex) (db db' : JsonDatabase) :
  processVertex v db = Ret db' →
  indices_documents (indices db') = indices_documents (indices db)
  ∨ ∃ id raw c,
      v = Document id raw c
      ∧ indices_documents (indices db')
        = <[URI_normalize raw :=
              push_document (md5_base64 (default "No content provided." c))
                (Document id (URI_normalize raw) c)
                (indices_documents (indices db) !! URI_normalize raw)]>
            (indices_documents (indices db)).
Proof.
  unfold processVertex, processMetaData, doProcessDocument.
  destruct db as [root vs o ins []].
  destruct v as [id r|id u c|id s e|id scheme identifier kind key|id label];
    simpl.
  - repeat case_match; try done; intros [= <-]; by left.
  - intros [= <-]. right. by exists id, u, c.
  - intros [= <-]. by left.
  - repeat case_match; try done; intros [= <-]; by left.
  - repeat case_match; try done; intros [= <-]; by left.
Qed.

(** The document vertices that [lines] hold for the uri [u], as
    ingestion stores them, in the order of the lines. *)
Definition documents_of (u : string) (lines : list Element) : list Vertex :=
  omap (λ element,
          match element with
          | vertex (Document id raw contents) =>
              if decide (URI_normalize raw = u)
              then Some (Document id u contents)
              else None
          | _ => None
          end)
       lines.

(** The document instances that the store holds for the uri [u]. *)
Definition instances (db : JsonDatabase) (u : string) : list Vertex :=
  match indices_documents (indices db) !! u with
  | Some bucket => bucket.(documents)
  | None => []
  end.

Lemma processVertex_instances (v : Vertex) (db db' : JsonDatabase) (u : string) :
  processVertex v db = Ret db' →
  instances db' u = instances db u ++ documents_of u [vertex v].
Proof.
  intros Hstep. unfold instances.
  assert ((∃ id raw c, v = Document id raw c)
          ∨ (∀ id raw c, v ≠ Document id raw c)
            ∧ documents_of u [vertex v] = [])
    as [(id & raw & c & ->)|[Hother Hnone]]
    by (destruct v; eauto).
  - revert Hstep. unfold processVertex, doProcessDocument.
    destruct db as [root vs o ins []]. simpl. intros [= <-]. simpl.
    unfold documents_of. simpl.
    destruct (decide (URI_normalize raw = u)) as [<-|Hne].
    + rewrite lookup_insert_eq.
      by destruct (indices_documents0 !! URI_normalize raw).
    + rewrite lookup_insert_ne by done. by rewrite app_nil_r.
  - rewrite Hnone, app_nil_r.
    destruct (processVertex_indices_documents _ _ _ Hstep)
      as [->|(id & raw & c & -> & _)]; [done|].
    by destruct (Hother id raw c).
Qed.

Lemma load_instances (lines : list Element) (db db' : JsonDatabase) (u : string) :
  load lines db = Ret db' →
  instances db' u = instances db u ++ documents_of u lines.
Proof.
  revert db. induction lines as [|element lines IH]; intros db.
  - simpl. intros [= <-]. unfold documents_of. simpl. by rewrite app_nil_r.
  - rewrite load_cons. intros (db1 & Hstep & Hrest)%bind_Ret.
    rewrite (IH _ Hrest).
    change (documents_of u (element :: lines))
      with (documents_of u ([element] ++ lines)).
    unfold documents_of at 2. rewrite omap_app, app_assoc. f_equal.
    destruct element as [v|e|]; [|simpl|done].
    + by apply processVertex_instances.
    + apply processEdge_frame in Hstep as (_ & Hidx & _).
      unfold instances. by rewrite Hidx, app_nil_r.
Qed.

Lemma load_document_index_ok (lines : list Element) (db : JsonDatabase) :
  load lines empty_database = Ret db → document_index_ok db.
Proof.
  apply (load_invariant document_index_ok).
  - intros v s s' Hs [Hsame|(id & raw & c & _ & Hnew)]
      %processVertex_indices_documents u bucket.
    + rewrite Hsame. apply Hs.
    + rewrite Hnew.
      destruct (decide (u = URI_normalize raw)) as [->|Hne];
        [|rewrite lookup_insert_ne by done; apply Hs].
      rewrite lookup_insert_eq. intros [= <-].
      destruct (indices_documents (indices s) !! URI_normalize raw)
        as [old|] eqn:Hold; simpl.
      * destruct (Hs _ _ Hold) as (Hall & id0 & c0 & rest & Hdocs & Hhash).
        split.
        -- intros d [Hd|Hd%list_elem_of_singleton]%elem_of_app; [by apply Hall|].
           subst d. by exists id, raw, c.
        -- exists id0, c0, (rest ++ [Document id (URI_normalize raw) c]).
           by rewrite Hdocs.
      * split.
        -- intros d Hd%list_elem_of_singleton. subst d. by exists id, raw, c.
        -- by exists id, c, [].
  - intros e s s' Hs (_ & Hidx & _)%processEdge_frame. unfold document_index_ok.
    by rewrite Hidx.
  - intros u bucket. simpl. by rewrite lookup_empty.
Qed.

(** X10: The document index of a loaded store: the instances of a uri are
    the document vertices of the loaded records that have that uri once
    normalised, filed under it in the order in which they were loaded;
    every bucket holds at least one, and the hash kept for the uri is
    that of the first instance. *)
Theorem load_indexes_documents_by_uri (lines : list Element) (db : JsonDatabase) :
  load lines empty_database = Ret db →
  document_index_ok db ∧ ∀ u, instances db u = documents_of u lines.
Proof.
  intros Hload. split; [by eapply load_document_index_ok|].
  intros u. by rewrite (load_instances _ _ _ u Hload).
Qed.

(** X11: A metaData vertex that names a project root other than the root the
    store has is refused. *)
Theorem second_workspace_root_is_refused (id : Id) (root root' : string)
    (db : JsonDatabase) :
  workspaceRoot db = Some root → root ≠ EmptyString → root' ≠ root →
  processVertex (MetaData id (Some root')) db = Throw MultipleWorkspaceRoots.
Proof.
  intros Hroot Hne Hother. unfold processVertex, processMetaData.
  destruct db as [r vs o ins idx]. simpl in *. subst r. simpl.
  destruct (String.eqb_spec root EmptyString); [done|]. simpl.
  rewrite (bool_decide_eq_false_2 (Some root' = Some root)) by congruence.
  done.
Qed.

(** X12: Once a store has a workspace root, no load changes it. *)
Theorem workspace_root_is_set_once (lines : list Element) (db db' : JsonDatabase) :
  truthy (workspaceRoot db) = true →
  load lines db = Ret db' →
  workspaceRoot db' = workspaceRoot db.
Proof.
  intros Hset.
  apply (load_invariant (λ s, workspaceRoot s = workspaceRoot db)); [| |done].
  - intros v s s' Hs. unfold processVertex, processMetaData, doProcessDocument.
    destruct s as [r vs o ins idx]. simpl in Hs. subst r.
    destruct v as [id r|id u c|id s e|id scheme identifier kind key|id label];
      simpl; rewrite ?Hset; simpl;
      repeat case_match; try done; try by intros [= <-].
    intros [= <-]. simpl.
    repeat match goal with
           | H : _ && _ = true |- _ => apply andb_true_iff in H as [? ?]
           | H : _ && _ = false |- _ => apply andb_false_iff in H as [?|?]
           | H : negb _ = false |- _ => apply negb_false_iff in H
           | H : bool_decide _ = true |- _ => apply bool_decide_eq_true in H
           | H : bool_decide _ = false |- _ => apply bool_decide_eq_false in H
           end; try done; congruence.
  - intros e s s' Hs (_ & _ & Hroot)%processEdge_frame. congruence.
Qed.

Lemma bind_Ret_r {A : Type} (m : outcome A) : m ≫= Ret = m.
Proof. by destruct m. Qed.

(** X13: An edge with several targets is processed as one edge per target, in
    order, so it can be split at any point; with no target at all it is
    accepted without its source being looked up.  The property of an edge
    is read only when its label is item. *)
Theorem processEdge_handles_targets_one_by_one (label : EdgeLabels.t)
    (outV inV : Id) (inVs inVs' : list Id)
    (property : option ItemEdgeProperties.t) (db : JsonDatabase) :
  processEdge (E1N label outV [inV] property) db
  = processEdge (E11 label outV inV property) db
  ∧ processEdge (E1N label outV (inVs ++ inVs') property) db
    = processEdge (E1N label outV inVs property) db
      ≫= processEdge (E1N label outV inVs' property)
  ∧ processEdge (E1N label outV [] property) db = Ret db
  ∧ (label ≠ EdgeLabels.item →
     processEdge (E11 label outV inV property) db
     = processEdge (E11 label outV inV None) db).
Proof.
  split_and!.
  - simpl. apply bind_Ret_r.
  - simpl. apply for_of_app.
  - done.
  - intros Hlabel. simpl. by rewrite bool_decide_eq_false_2.
Qed.

(** X14: Loading one dump after another into the same store is loading their
    concatenation; a record that is neither a vertex nor an edge makes
    the load throw, whatever follows it. *)
Theorem load_handles_records_in_order (first second : list Element)
    (db : JsonDatabase) :
  load (first ++ second) db = load first db ≫= load second
  ∧ load (foreign :: second) db = Throw UnexpectedElementType
  ∧ load [] db = Ret db.
Proof. split_and!; [apply load_app|done..]. Qed.

(** ** More on containment *)

(** X15: A range contains a position exactly when the position is not before
    its start and not after its end, in the order of positions by line
    and then by character: both ends are inclusive. *)
Theorem containsPosition_is_between_start_and_end (range : Span)
    (position : Position) :
  containsPosition range position = true
  ↔ position_le range.(start) position ∧ position_le position range.(end_).
Proof. apply containsPosition_spec. Qed.

(** X16: Containment of ranges is transitive and antisymmetric, and a range
    whose start is not after its end contains itself. *)
Theorem containsRange_is_an_order (a b c : Span) :
  (containsRange a b = true → containsRange b c = true →
   containsRange a c = true)
  ∧ (containsRange a b = true → containsRange b a = true → a = b)
  ∧ (position_le a.(start) a.(end_) → containsRange a a = true).
Proof.
  split_and!.
  - apply containsRange_trans.
  - apply containsRange_antisym.
  - rewrite containsRange_spec. unfold position_le.
    destruct a as [[? ?] [? ?]]; simpl. lia.
Qed.

(** X17: A range contains the positions of every range it contains. *)
Theorem containsRange_contains_the_positions (outer inner : Span)
    (position : Position) :
  containsRange outer inner = true →
  containsPosition inner position = true →
  containsPosition outer position = true.
Proof.
  rewrite containsRange_spec, !containsPosition_spec. unfold position_le.
  destruct outer as [[? ?] [? ?]], inner as [[? ?] [? ?]], position as [? ?];
    simpl. lia.
Qed.

(** ** More on position resolution *)

Lemma ranges_of_documents_nonempty (db : JsonDatabase) (position : Position)
    (docs result ranges : list Vertex) :
  ranges_of_documents db position docs result = Some ranges → ranges ≠ [].
Proof.
  revert result. induction docs as [|document docs IH]; intros result; simpl.
  - destruct result; [done|]. by intros [= <-].
  - destruct (out_contains (out db) !! vertex_id document) as [[|]|]; try done.
    apply IH.
Qed.

(** X18: What position resolution returns, when it returns something: the
    candidates of the document instances of the uri, in the order of the
    instances; there is at least one, and each is a range that contains
    the position. *)
Theorem findRangesFromPosition_returns_the_candidates (db : JsonDatabase)
    (file : string) (position : Position) (ranges : list Vertex) :
  findRangesFromPosition db file position = Some ranges →
  ranges ≠ []
  ∧ (∃ bucket,
       indices_documents (indices db) !! file = Some bucket
       ∧ ranges = omap (candidate_in db position) bucket.(documents))
  ∧ ∀ r, r ∈ ranges → contains_at position r.
Proof.
  unfold findRangesFromPosition.
  destruct (indices_documents (indices db) !! file) as [bucket|]; [|done].
  intros Hranges. pose proof (ranges_of_documents_Some _ _ _ _ _ Hranges) as Heq.
  simpl in Heq. split_and!.
  - by eapply ranges_of_documents_nonempty.
  - by exists bucket.
  - intros r. rewrite Heq. intros (document & _ & Hcandidate)%list_elem_of_omap.
    unfold candidate_in in Hcandidate.
    destruct (out_contains (out db) !! vertex_id document) as [contains|];
      [|done].
    simpl in Hcandidate. pose proof (pick_candidate_of position contains) as Hinv.
    rewrite Hcandidate in Hinv. by destruct Hinv as (_ & ? & _).
Qed.

(** ** More on result paths *)

(** [entries] are the vertices met from [currentId] along next edges,
    none with an entry in [edges], each with its own moniker. *)
Definition trail_from (db : JsonDatabase) (edges : gmap Id Vertex)
    (currentId : Id) (entries : list PathEntry) : Prop :=
  ∀ i entry,
    entries !! i = Some entry →
    follow_next db i currentId = Some entry.(entry_vertex)
    ∧ edges !! entry.(entry_vertex) = None
    ∧ entry.(entry_moniker) = out_moniker (out db) !! entry.(entry_vertex).

(** Where the trail of a result path ends: at a vertex with an entry in
    [edges], which is the result and is not on the trail, or else at a
    last trail entry with no next edge. *)
Definition ends_at (db : JsonDatabase) (edges : gmap Id Vertex)
    (currentId : Id) (entries : list PathEntry)
    (found : option (Vertex * option Vertex)) : Prop :=
  match found with
  | Some (value, moniker) =>
      ∃ id, follow_next db (length entries) currentId = Some id
            ∧ edges !! id = Some value
            ∧ out_moniker (out db) !! id = moniker
  | None =>
      ∃ entry, last entries = Some entry
               ∧ out_next (out db) !! entry.(entry_vertex) = None
  end.

Lemma walk_shape (db : JsonDatabase) (edges : gmap Id Vertex) (fuel : nat)
    (currentId : Id) (trail : list PathEntry) (r : ResultPath) :
  walk db edges fuel currentId trail = Some r →
  ∃ entries,
    r.(path) = trail ++ entries
    ∧ trail_from db edges currentId entries
    ∧ ends_at db edges currentId entries r.(result).
Proof.
  revert currentId trail. induction fuel as [|fuel IH]; intros currentId trail;
    simpl; [done|].
  destruct (edges !! currentId) as [value|] eqn:Hvalue.
  - intros [= <-]. exists []. simpl. split_and!.
    + by rewrite app_nil_r.
    + intros i entry Hi. by rewrite lookup_nil in Hi.
    + by exists currentId.
  - set (entry := {| entry_vertex := currentId;
                     entry_moniker := out_moniker (out db) !! currentId |}).
    destruct (out_next (out db) !! currentId) as [next|] eqn:Hnext.
    + intros (entries & Hpath & Htrail & Hend)%IH.
      exists (entry :: entries). split_and!.
      * by rewrite Hpath, <- app_assoc.
      * intros [|i] e; simpl.
        -- by intros [= <-].
        -- rewrite Hnext. apply Htrail.
      * destruct (result r) as [[value moniker]|]; simpl in *.
        -- by rewrite Hnext.
        -- destruct Hend as (e & Hlast & Hno). exists e. split; [|done].
           destruct entries; [done|]. by rewrite last_cons, Hlast.
    + intros [= <-]. exists [entry]. simpl. split_and!; [done| |by exists entry].
      intros [|i] e; simpl; [by intros [= <-]|]. by rewrite lookup_nil.
Qed.

(** X19: The trail of a result path lists, in order from the start, the
    vertices along the next edges that have no entry in the relation
    map, each with its own moniker; the result, when there is one, is the
    entry of the vertex that comes next, with the moniker of that vertex;
    when there is none, the last vertex of the trail has no next edge. *)
Theorem getResultPath_walks_the_next_chain (db : JsonDatabase) (fuel : nat)
    (start : Id) (edges : gmap Id Vertex) (r : ResultPath) :
  getResultPath db fuel start edges = Ret r →
  trail_from db edges start r.(path)
  ∧ ends_at db edges start r.(path) r.(result).
Proof.
  unfold getResultPath.
  destruct (walk db edges fuel start []) as [r'|] eqn:Hwalk; [|done].
  intros [= <-]. apply walk_shape in Hwalk as (entries & -> & ? & ?). done.
Qed.

(** ** More on locations *)

(** X20: Adding the location of a vertex a second time changes nothing, and
    adding it leaves the locations held before where they were. *)
Theorem addLocation_adds_a_vertex_once (db : JsonDatabase) (value : Vertex)
    (s s' : QueryState) :
  addLocation db value s = Ret s' →
  addLocation db value s' = Ret s'
  ∧ ∃ added, s'.(locations) = s.(locations) ++ added ∧ length added ≤ 1.
Proof.
  intros Hadd.
  pose proof (addLocation_pushes _ _ _ _ Hadd)
    as (document & document_uri & span & Hdoc & Huri & Hspan & ->).
  set (l := {| uri := Some (URI_normalize document_uri); range := span |}).
  split.
  - unfold addLocation. rewrite Hdoc, Huri, Hspan. fold l. f_equal.
    unfold push_location. destruct (decide (makeKey l ∈ dedupLocations s)).
    + by rewrite decide_True.
    + simpl. rewrite decide_True; [done|].
      apply elem_of_union_l. by apply elem_of_singleton.
  - destruct (push_location_cases l s) as [->|[_ ->]]; simpl.
    + exists []. rewrite app_nil_r. split; [done|simpl; lia].
    + exists [l]. split; [done|simpl; lia].
Qed.







(** X22: A moniker without a key, as a local moniker is, has no bucket in the
    moniker index: expanding it adds no location. *)
Theorem moniker_without_key_expands_to_nothing (db : JsonDatabase) (fuel : nat)
    (edges : gmap Id Vertex) (includeDeclaration : bool) (moniker : Vertex) :
  vertex_key moniker = None →
  (∀ s, ∃ s', expand_targets db fuel edges s moniker = Ret s'
              ∧ s'.(locations) = s.(locations))
  ∧ (∀ st, ∃ st', expand_references db fuel includeDeclaration st moniker = Ret st'
                  ∧ st'.(query).(locations) = st.(query).(locations)
                  ∧ st'.(monikers) = st.(monikers)).
Proof.
  intros Hkey. unfold expand_targets, expand_references, matching_monikers.
  rewrite Hkey. simpl. split.
  - intros s. destruct (decide _); by eexists.
  - intros st. destruct (decide _); by eexists.
Qed.

(** ** More on all exported definitions *)

Lemma includes_false (s searchString : string) :
  includes s searchString = false
  ↔ ¬ ∃ before after, s = (before ++ searchString ++ after)%string.
Proof. by rewrite <- includes_spec, not_true_iff_false. Qed.

(** X23: The monikers that [allDefinitions] keeps: those of kind export whose
    identifier is some text followed by a dot, and in which none of the
    three markers occurs. *)
Theorem is_exported_definition_iff (moniker : Vertex) :
  is_exported_definition moniker = true
  ↔ ∃ id scheme name key,
      moniker = Moniker id scheme (name ++ ".") (Some MonikerKind.export) key
      ∧ Forall
          (λ marker, ¬ ∃ before after,
                         (name ++ ".")%string = (before ++ marker ++ after)%string)
          ["`<constructor>`"; "#getDerivedStateFromProps()"; "#propTypes"]%string.
Proof.
  split.
  - destruct moniker as [| | |id scheme identifier [[| |]|] key|]; try done.
    simpl. rewrite andb_true_iff, negb_true_iff, !orb_false_iff.
    rewrite endsWith_spec, !includes_false.
    intros ([name ->] & (Hc & Hg) & Hp). exists id, scheme, name, key.
    split; [done|]. by repeat constructor.
  - intros (id & scheme & name & key & -> & Hmarkers). simpl.
    rewrite andb_true_iff, negb_true_iff, !orb_false_iff.
    rewrite endsWith_spec, !includes_false.
    inversion Hmarkers as [|? ? Hc Hrest]; subst.
    inversion Hrest as [|? ? Hg Hrest']; subst.
    inversion Hrest' as [|? ? Hp _]; subst.
    split_and!; [by exists name|done..].
Qed.

Lemma definitions_of_documents_Some (db : JsonDatabase) (fuel : nat)
    (docs : list Vertex) (results results' : list Location) :
  definitions_of_documents db fuel docs results = Ret (Some results') →
  Forall (λ document,
            ∃ first contains,
              out_contains (out db) !! vertex_id document = Some (first :: contains))
         docs.
Proof.
  revert results. induction docs as [|document docs IH]; intros results; simpl;
    [constructor|].
  destruct (out_contains (out db) !! vertex_id document)
    as [[|first contains]|] eqn:Hcontains; [done| |done].
  intros (results1 & _ & Hrest)%bind_Ret. constructor; eauto.
Qed.

(** X24: [allDefinitions] returns nothing for a uri that has no document
    instance, and returns no list when one of the instances of the uri
    has no contains list or an empty one. *)
Theorem allDefinitions_needs_ranges_in_every_instance (db : JsonDatabase)
    (fuel : nat) (file : string) :
  (indices_documents (indices db) !! URI_normalize file = None →
   allDefinitions db fuel file = Ret None)
  ∧ (∀ bucket document,
       indices_documents (indices db) !! URI_normalize file = Some bucket →
       document ∈ bucket.(documents) →
       out_contains (out db) !! vertex_id document = None
       ∨ out_contains (out db) !! vertex_id document = Some [] →
       ∀ results, allDefinitions db fuel file ≠ Ret (Some results)).
Proof.
  unfold allDefinitions. split.
  - by intros ->.
  - intros bucket document -> Hin Hbad results.
    intros (found & Hfound & Hrest)%bind_Ret.
    destruct found as [found|]; [|done].
    apply definitions_of_documents_Some in Hfound.
    rewrite Forall_forall in Hfound.
    destruct (Hfound document Hin) as (first & contains & Hcontains).
    destruct Hbad; congruence.
Qed.

(** ** The command *)

(** X25: What the command reports for a file.  It runs, for each location
    that [allDefinitions] returns, in order, the references query at the
    start of that location with declarations included; and it prints, in
    that order, the one location of each answer that is a list of exactly
    one location, and nothing for any other answer. *)
Theorem unused_definitions_reports_sole_references (db : JsonDatabase)
    (fuel : nat) (file : string) (printed : list Location) :
  unused_definitions db fuel file = Ret printed →
  ∃ found answers,
    allDefinitions db fuel file = Ret found
    ∧ Forall2 (λ definition answer, references_of db fuel definition = Ret answer)
        (default [] found) answers
    ∧ printed = omap sole_reference answers.
Proof.
  unfold unused_definitions. intros (found & Hfound & Hloop)%bind_Ret.
  assert (∀ candidates acc printed,
            for_of candidates (report_if_unused db fuel) acc = Ret printed →
            ∃ answers,
              Forall2 (λ definition answer,
                         references_of db fuel definition = Ret answer)
                candidates answers
              ∧ printed = acc ++ omap sole_reference answers) as Hgen.
  { clear. induction candidates as [|definition candidates IH];
      intros acc printed; simpl.
    - intros [= <-]. exists []. split; [constructor|]. by rewrite app_nil_r.
    - intros (acc1 & Hstep & Hrest)%bind_Ret.
      unfold report_if_unused in Hstep.
      apply bind_Ret in Hstep as (answer & Hanswer & [= <-]).
      destruct (IH _ _ Hrest) as (answers & Hall & ->).
      exists (answer :: answers). split; [by constructor|].
      rewrite <- app_assoc. f_equal. simpl.
      by destruct (sole_reference answer). }
  destruct (Hgen _ _ _ Hloop) as (answers & Hall & ->).
  by exists found, answers.
Qed.

(** ** Printing *)

(** X26: What [print] returns is the header, the context lines and an
    empty line, joined by line feeds.  The header is the uri, the start
    line and the start character, both counted from one.  For a file uri
    there is one context line for each file line from [context] lines
    before the start of the range to [context] lines after its end, the
    line at index [i] being that of file line [start.line - context + i],
    numbered from one, and marked when, and only when, [i] is [context],
    the start line; for any other uri there is no context line. *)
Theorem print_marks_the_start_line (is_file : bool) (content : list string)
    (location : Location) (context : Z) :
  let first := (location.(range).(start).(line) - context)%Z in
  let count :=
    Z.to_nat (location.(range).(end_).(line)
              - location.(range).(start).(line) + 2 * context + 1) in
  ∃ lines,
    print is_file content location context
    = String.concat newline
        ([(default "undefined" location.(uri) ++ ":"
           ++ pretty (location.(range).(start).(line) + 1)%Z ++ ":"
           ++ pretty (location.(range).(start).(character) + 1)%Z)%string]
         ++ lines ++ [EmptyString])
    ∧ length lines = (if is_file then count else 0)
    ∧ ∀ i text,
        lines !! i = Some text →
        text = ((if decide (Z.of_nat i = context) then " > " else "   ")
                ++ pretty (first + Z.of_nat i + 1)%Z ++ ": "
                ++ line_text content (first + Z.of_nat i))%string.
Proof.
  simpl.
  exists (if is_file then context_lines content location context else []).
  split_and!.
  - done.
  - destruct is_file; [|done]. unfold context_lines.
    rewrite length_fmap, length_seqZ. f_equal. lia.
  - intros i text. destruct is_file; [|by rewrite lookup_nil].
    unfold context_lines. rewrite list_lookup_fmap.
    destruct (seqZ _ _ !! i) as [j|] eqn:Hj; [|done].
    apply lookup_seqZ in Hj as [-> _]. simpl. intros [= <-].
    unfold context_line.
    destruct (decide (Z.of_nat i = context)) as [Heq|Hne].
    + rewrite (proj2 (Z.eqb_eq _ _)) by lia. done.
    + rewrite (proj2 (Z.eqb_neq _ _)) by lia. done.
Qed.

(** ** Termination of the queries on acyclic stores *)

Lemma bind_not_OutOfFuel {A B : Type} (m : outcome A) (k : A → outcome B) :
  m ≠ OutOfFuel → (∀ a, k a ≠ OutOfFuel) → m ≫= k ≠ OutOfFuel.
Proof. destruct m; simpl; auto. Qed.

Lemma for_of_not_OutOfFuel {S A : Type} (body : S → A → outcome S) (xs : list A) :
  (∀ s x, body s x ≠ OutOfFuel) → ∀ s, for_of xs body s ≠ OutOfFuel.
Proof.
  intros Hbody. induction xs as [|x xs IH]; intros s; simpl; [done|].
  by apply bind_not_OutOfFuel.
Qed.

Lemma addLocation_not_OutOfFuel (db : JsonDatabase) (value : Vertex)
    (s : QueryState) :
  addLocation db value s ≠ OutOfFuel.
Proof. unfold addLocation. by repeat case_match. Qed.

Lemma addLocation_item_not_OutOfFuel (db : JsonDatabase) (element : ItemTarget)
    (s : QueryState) :
  addLocation_item db element s ≠ OutOfFuel.
Proof.
  destruct element; simpl; try apply addLocation_not_OutOfFuel;
    by repeat case_match.
Qed.

Section acyclic_store.

Variable db : JsonDatabase.
Variable fuel : nat.

Hypothesis next_edges_acyclic : ∀ start, acyclic_from db start.
Hypothesis enough_fuel : size (out_next (out db)) < fuel.

Lemma getResultPath_returns (start : Id) (edges : gmap Id Vertex) :
  ∃ r, getResultPath db fuel start edges = Ret r.
Proof using next_edges_acyclic enough_fuel.
  destruct (walk_terminates db edges start [] (next_edges_acyclic start))
    as [r Hr].
  exists r. unfold getResultPath.
  replace fuel with (S (size (out_next (out db)))
                     + (fuel - S (size (out_next (out db))))) by lia.
  by rewrite (walk_more_fuel _ _ _ _ _ _ _ Hr).
Qed.

Lemma resolveTargets_not_OutOfFuel (targetResult : Vertex) (s : QueryState) :
  resolveTargets db targetResult s ≠ OutOfFuel.
Proof.
  unfold resolveTargets. destruct (item db targetResult); [|done].
  apply for_of_not_OutOfFuel. intros s0 element.
  apply addLocation_item_not_OutOfFuel.
Qed.

Lemma findTargets_not_OutOfFuel (edges : gmap Id Vertex) (uri : string)
    (position : Position) :
  findTargets db fuel edges uri position ≠ OutOfFuel.
Proof using next_edges_acyclic enough_fuel.
  unfold findTargets, findTargets_state.
  destruct (findRangesFromPosition _ _ _) as [ranges|]; [|done].
  apply bind_not_OutOfFuel; [|by intros [?|]].
  apply bind_not_OutOfFuel; [|done].
  apply for_of_not_OutOfFuel. intros s range. unfold _findTargets.
  destruct (getResultPath_returns (vertex_id range) edges) as [r ->]. simpl.
  destruct (result r) as [[value ?]|]; [|done].
  apply bind_not_OutOfFuel; [apply resolveTargets_not_OutOfFuel|].
  intros s1. apply for_of_not_OutOfFuel. intros s2 moniker.
  unfold expand_targets. destruct (decide _); [done|].
  destruct (matching_monikers db (vertex_key moniker)); [|done].
  apply for_of_not_OutOfFuel. intros s3 matchingMoniker.
  destruct (findVerticesForMoniker db matchingMoniker); [|done].
  apply for_of_not_OutOfFuel. intros s4 v.
  destruct (getResultPath_returns (vertex_id v) edges) as [r' ->]. simpl.
  destruct (result r') as [[value' ?]|]; [|done].
  apply resolveTargets_not_OutOfFuel.
Qed.

Lemma allDefinitions_not_OutOfFuel (file : string) :
  allDefinitions db fuel file ≠ OutOfFuel.
Proof using next_edges_acyclic enough_fuel.
  unfold allDefinitions.
  destruct (indices_documents (indices db) !! URI_normalize file) as [bucket|];
    [|done].
  apply bind_not_OutOfFuel; [|by intros [[|]|]].
  generalize (@nil Location).
  induction (documents bucket) as [|document docs IH]; intros acc; simpl; [done|].
  destruct (out_contains (out db) !! vertex_id document) as [[|first contains]|];
    try done.
  apply bind_not_OutOfFuel; [|done].
  apply for_of_not_OutOfFuel. intros acc0 range.
  unfold collect_definitions. destruct range as [| |id item_start item_end| |];
    try done.
  destruct (getResultPath_returns id (out_definition (out db))) as [r ->]. simpl.
  destruct (getMostSpecificMoniker r) as [moniker|]; [|done].
  destruct (is_exported_definition moniker); [|done].
  destruct (vertex_uri document); [|done].
  apply bind_not_OutOfFuel; [apply findTargets_not_OutOfFuel|by intros []].
Qed.

End acyclic_store.

(** X28: On a store whose next edges form no cycle, declarations, definitions
    and [allDefinitions] come to an end, with a result or with an error,
    within a budget of one more turn than there are next edges. *)
Theorem definitions_terminate_on_acyclic_stores (db : JsonDatabase) (fuel : nat)
    (uri : string) (position : Position) :
  (∀ start, acyclic_from db start) →
  size (out_next (out db)) < fuel →
  declarations db fuel uri position ≠ OutOfFuel
  ∧ definitions db fuel uri position ≠ OutOfFuel
  ∧ allDefinitions db fuel uri ≠ OutOfFuel.
Proof.
  intros Hacyclic Hfuel. split_and!.
  - by apply findTargets_not_OutOfFuel.
  - by apply findTargets_not_OutOfFuel.
  - by apply allDefinitions_not_OutOfFuel.
Qed.

(** A store in which no target of a next edge has a next edge of its
    own, as when ranges point to result sets and result sets to nothing,
    has no cycle of next edges. *)
Lemma acyclic_when_next_edges_do_not_chain (db : JsonDatabase) :
  map_Forall (λ _ next, out_next (out db) !! vertex_id next = None)
    (out_next (out db)) →
  ∀ start, acyclic_from db start.
Proof.
  intros Hflat start i j a Hij Hi Hj.
  assert (∀ k id, follow_next db (S (S k)) id = None) as Hshort.
  { intros k id. simpl.
    destruct (out_next (out db) !! id) as [next|] eqn:Hnext; [|done].
    pose proof (Hflat _ _ Hnext) as Hnone. simpl in Hnone. by rewrite Hnone. }
  destruct j as [|[|j]]; [lia| |by rewrite Hshort in Hj].
  assert (i = 0) as -> by lia. simpl in Hi. injection Hi as ->.
  simpl in Hj. destruct (out_next (out db) !! a) as [next|] eqn:Hnext; [|done].
  injection Hj as Hloop. pose proof (Hflat _ _ Hnext) as Hnone.
  simpl in Hnone. rewrite Hloop in Hnone. congruence.
Qed.

(** ** The moniker worklist of a references query *)

(** [st'] has the monikers of [st], in place, possibly followed by
    more, and every moniker key recorded in [st]. *)
Definition extends (st st' : ReferenceState) : Prop :=
  st.(monikers) `prefix_of` st'.(monikers)
  ∧ st.(query).(dedupMonikers) ⊆ st'.(query).(dedupMonikers).

Lemma extends_refl (st : ReferenceState) : extends st st.
Proof. by split. Qed.

Lemma extends_trans (st1 st2 st3 : ReferenceState) :
  extends st1 st2 → extends st2 st3 → extends st1 st3.
Proof. intros [? ?] [? ?]. split; by etrans. Qed.

Lemma for_of_extends {A : Type} (body : ReferenceState → A → outcome ReferenceState)
    (xs : list A) :
  (∀ st x st', body st x = Ret st' → extends st st') →
  ∀ st st', for_of xs body st = Ret st' → extends st st'.
Proof.
  intros Hbody st st' Hloop.
  eapply (for_of_invariant (extends st)); [|apply extends_refl|exact Hloop].
  intros s x s' _ Hs Hstep. eapply extends_trans; [exact Hs|]. by eapply Hbody.
Qed.

Lemma on_query_addLocation_extends (db : JsonDatabase) (value : Vertex)
    (st st' : ReferenceState) :
  on_query (addLocation db value) st = Ret st' → extends st st'.
Proof.
  unfold on_query. intros (s & Hadd & [= <-])%bind_Ret.
  split; simpl; [done|].
  by apply addLocation_cases in Hadd as [->|(l & _ & ->)].
Qed.

Lemma resolveReferenceResult_extends (db : JsonDatabase)
    (includeDeclaration : bool) (depth : nat) (referenceResult : Vertex)
    (st st' : ReferenceState) :
  resolveReferenceResult db includeDeclaration depth referenceResult st = Ret st' →
  extends st st'.
Proof.
  revert referenceResult st st'.
  induction depth as [|depth IH]; intros referenceResult st st'; simpl; [done|].
  destruct (item db referenceResult) as [targets|];
    [|intros [= <-]; apply extends_refl].
  apply for_of_extends. intros st0 target st0'.
  destruct target as [to|range|range|range|nested|link].
  - destruct (is_range to); [apply on_query_addLocation_extends|].
    intros [= <-]. apply extends_refl.
  - destruct includeDeclaration; [apply on_query_addLocation_extends|].
    intros [= <-]. apply extends_refl.
  - destruct includeDeclaration; [apply on_query_addLocation_extends|].
    intros [= <-]. apply extends_refl.
  - apply on_query_addLocation_extends.
  - apply IH.
  - intros [= <-]. split; simpl; [by apply prefix_app_r|done].
Qed.

Lemma expand_references_extends (db : JsonDatabase) (fuel : nat)
    (includeDeclaration : bool) (st : ReferenceState) (moniker : Vertex)
    (st' : ReferenceState) :
  expand_references db fuel includeDeclaration st moniker = Ret st' →
  extends st st' ∧ vertex_key moniker ∈ st'.(query).(dedupMonikers).
Proof.
  unfold expand_references.
  destruct (decide _) as [Hseen|Hfresh];
    [intros [= <-]; split; [apply extends_refl|done]|].
  set (marked := {| query := mark_moniker (vertex_key moniker) (query st);
                    monikers := monikers st |}).
  assert (extends st marked) as Hmarked.
  { split; simpl; [done|]. apply union_subseteq_r. }
  assert (vertex_key moniker ∈ dedupMonikers (query marked)) as Hrecorded.
  { simpl. apply elem_of_union_l. by apply elem_of_singleton. }
  intros Hrun. enough (extends marked st') as Hext.
  { split; [by eapply extends_trans|]. by apply Hext. }
  revert Hrun.
  destruct (matching_monikers db (vertex_key moniker)) as [matchingMonikers|];
    [|intros [= <-]; apply extends_refl].
  apply for_of_extends. intros st1 matchingMoniker st1'.
  destruct (findVerticesForMoniker db matchingMoniker) as [vs|];
    [|intros [= <-]; apply extends_refl].
  apply for_of_extends. intros st2 v st2' (resultPath & _ & Hrest)%bind_Ret.
  destruct (result resultPath) as [[value ?]|];
    [|injection Hrest as <-; apply extends_refl].
  by eapply resolveReferenceResult_extends.
Qed.

(** X29: When the loop over the monikers of a references query returns, it
    has gone through every moniker of the array from where it started,
    those pushed while it ran included: the key of each is recorded.  The
    monikers it started with are still in place. *)
Theorem moniker_loop_reaches_pushed_monikers (db : JsonDatabase) (fuel : nat)
    (includeDeclaration : bool) (turns i : nat) (st st' : ReferenceState) :
  moniker_loop db fuel includeDeclaration turns i st = Ret st' →
  st.(monikers) `prefix_of` st'.(monikers)
  ∧ ∀ j moniker,
      i ≤ j → st'.(monikers) !! j = Some moniker →
      vertex_key moniker ∈ st'.(query).(dedupMonikers).
Proof.
  enough (moniker_loop db fuel includeDeclaration turns i st = Ret st' →
          extends st st'
          ∧ ∀ j moniker,
              i ≤ j → st'.(monikers) !! j = Some moniker →
              vertex_key moniker ∈ st'.(query).(dedupMonikers)) as Hgen.
  { intros Hrun. destruct (Hgen Hrun) as [[? _] ?]. done. }
  revert i st. induction turns as [|turns IH]; intros i st; simpl; [done|].
  destruct (monikers st !! i) as [moniker|] eqn:Hi.
  - intros (st1 & Hexpand & Hloop)%bind_Ret.
    apply expand_references_extends in Hexpand as [Hext1 Hrecorded].
    destruct (IH _ _ Hloop) as [Hext2 Hrest].
    split; [by eapply extends_trans|].
    intros j m Hj Hm. destruct (decide (j = i)) as [->|Hne]; [|apply (Hrest j); [lia|done]].
    destruct Hext1 as [Hprefix1 _], Hext2 as [Hprefix2 Hkeys2].
    assert (monikers st' !! i = Some moniker) as Hsame.
    { eapply prefix_lookup_Some; [|exact Hprefix2].
      eapply prefix_lookup_Some; [exact Hi|exact Hprefix1]. }
    assert (m = moniker) as -> by congruence.
    by apply Hkeys2.
  - intros [= <-]. split; [apply extends_refl|].
    intros j m Hj Hm. apply lookup_ge_None in Hi.
    apply lookup_lt_Some in Hm. lia.
Qed.

End Database.

(** * The properties on the sample dumps *)

Abbreviation on_samples f :=
  (f plain_digest plain_stringify plain_normalize) (only parsing).

Abbreviation on_ranges f :=
  (f plain_digest plain_stringify plain_normalize plain_range_is)
  (only parsing).

Lemma C1_declaration_dump_witness :
  out_declaration (out (on_samples loaded declaration_dump)) = ∅
  ∧ out_implementation (out (on_samples loaded declaration_dump)) = ∅
  ∧ ∀ fuel uri position r,
      on_ranges declarations (on_samples loaded declaration_dump)
        fuel uri position = Ret r →
      r = undefined ∨ r = location_array [].
Proof.
  apply (C1_declaration_edges_are_not_stored
           plain_digest plain_stringify plain_normalize plain_range_is declaration_dump).
  vm_compute. reflexivity.
Defined.







Lemma C5_symbol_dump_witness :
  uri definition_site = Some (plain_normalize "file:///a.ts")
  ∧ ∃ document item,
      on_ranges exported_definition_site (on_samples loaded symbol_dump) 10
        document item definition_site.
Proof.
  destruct (C5_allDefinitions_keeps_exported_definitions_of_the_document
              plain_digest plain_stringify plain_normalize plain_range_is
              (on_samples loaded symbol_dump) 10 "file:///a.ts"
              [definition_site; definition_site] definition_site)
    as (Huri & _ & document & _ & item & _ & _ & _ & _ & Hsite).
  - vm_compute. reflexivity.
  - by left.
  - split; [exact Huri|]. by exists document, item.
Defined.

Lemma C6_trail_witness :
  getMostSpecificMoniker
    {| path := [ {| entry_vertex := 2; entry_moniker := None |};
                 {| entry_vertex := 4; entry_moniker := Some sample_moniker |};
                 {| entry_vertex := 8; entry_moniker := None |} ];
       result := None |}
  = Some sample_moniker.
Proof.
  apply (proj1 (proj2 (C6_most_specific_moniker _))
           [ {| entry_vertex := 2; entry_moniker := None |} ]
           {| entry_vertex := 4; entry_moniker := Some sample_moniker |}
           [ {| entry_vertex := 8; entry_moniker := None |} ]).
  - by left.
  - reflexivity.
  - reflexivity.
  - by repeat constructor.
Defined.

Lemma C7_symbol_dump_witness :
  ∃ s, on_samples references_state (on_samples loaded symbol_dump) 10 true
         "file:///a.ts" (at_ 1 1) = Ret (Some s)
       ∧ lookups s = [Some "s:scip;i:pkg/foo.;"]
       ∧ NoDup (lookups s).
Proof.
  eexists. split; [vm_compute; reflexivity|]. split; [reflexivity|].
  eapply (proj2 (C7_moniker_key_is_expanded_once
                   plain_digest plain_stringify plain_normalize plain_range_is
                   (on_samples loaded symbol_dump) 10 "file:///a.ts" (at_ 1 1))
            true).
  vm_compute. reflexivity.
Defined.

Lemma C8_chain_and_cycle_witness :
  (∃ r, ∀ fuel, size (out_next (out (on_samples loaded symbol_dump))) < fuel →
          getResultPath (on_samples loaded symbol_dump) fuel 3
            (out_definition (out (on_samples loaded symbol_dump))) = Ret r)
  ∧ ∀ fuel, getResultPath (on_samples loaded cycle_dump) fuel 1 ∅ = OutOfFuel.
Proof.
  split.
  - apply (proj1 (C8_path_resolution_terminates_unless_cyclic _ _ _)).
    intros [|[|i]] [|[|j]] a Hij; vm_compute; intros; first [lia|congruence].
  - apply (proj2 (C8_path_resolution_terminates_unless_cyclic
                    (on_samples loaded cycle_dump) ∅ 1) 2).
    + lia.
    + vm_compute. reflexivity.
    + intros k id _. apply lookup_empty.
Defined.

Lemma C9_two_instance_dump_witness :
  findRangesFromPosition (on_samples loaded two_instance_dump) "file:///a.ts"
    (at_ 0 1) = None
  ∧ findRangesFromPosition (on_samples loaded missed_instance_dump)
      "file:///a.ts" (at_ 0 1)
    = Some [Range 3 (at_ 0 0) (at_ 0 3)]
  ∧ ∃ ranges c,
      findRangesFromPosition (on_samples loaded missed_instance_dump)
        "file:///a.ts" (at_ 0 1) = Some ranges
      ∧ c ∈ ranges
      ∧ c ∈ [Range 3 (at_ 0 0) (at_ 0 3)]
      ∧ contains_at (at_ 0 1) c.
Proof.
  split.
  { apply (proj1 (C9_document_without_ranges_aborts
                    (on_samples loaded two_instance_dump) "file:///a.ts"
                    (at_ 0 1)
                    {| hash := "No content provided.";
                       documents := [Document 1 "file:///a.ts" None;
                                     Document 2 "file:///a.ts" None] |}
                    ltac:(vm_compute; reflexivity))
             (Document 2 "file:///a.ts" None)).
    - right. by left.
    - left. vm_compute. reflexivity. }
  destruct (proj2 (C9_document_without_ranges_aborts
                     (on_samples loaded missed_instance_dump) "file:///a.ts"
                     (at_ 0 1)
                     {| hash := "No content provided.";
                        documents := [Document 1 "file:///a.ts" None;
                                      Document 2 "file:///a.ts" None] |}
                     ltac:(vm_compute; reflexivity))
              [Document 1 "file:///a.ts" None] (Document 2 "file:///a.ts" None)
              [] [Range 4 (at_ 5 0) (at_ 5 3)])
    as [Hfound Hother].
  - reflexivity.
  - vm_compute. reflexivity.
  - discriminate.
  - intros item ->%list_elem_of_singleton (span & [= <-] & Hat).
    vm_compute in Hat. discriminate.
  - repeat constructor. eexists _, _. vm_compute. reflexivity.
  - split; [exact Hfound|].
    apply (Hother (Document 1 "file:///a.ts" None)
             [Range 3 (at_ 0 0) (at_ 0 3)] (Range 3 (at_ 0 0) (at_ 0 3))).
    + by left.
    + vm_compute. reflexivity.
    + by left.
    + eexists. split; [reflexivity|vm_compute; reflexivity].
Defined.

Lemma C10_symbol_dump_witness :
  on_ranges definitions (on_samples loaded symbol_dump) 10 "file:///a.ts"
    (at_ 1 1) = Ret (location_array [definition_site])
  ∧ is_Some (findRangesFromPosition (on_samples loaded symbol_dump)
               (plain_normalize "file:///a.ts") (at_ 1 1)).
Proof.
  assert (on_ranges definitions (on_samples loaded symbol_dump) 10
            "file:///a.ts" (at_ 1 1) = Ret (location_array [definition_site]))
    as Hrun by (vm_compute; reflexivity).
  split; [exact Hrun|].
  exact (proj1 (proj2 (C10_queries_return_absent_or_array
                         plain_digest plain_stringify plain_normalize plain_range_is
                         (on_samples loaded symbol_dump) 10 "file:///a.ts"
                         (at_ 1 1)))
           _ Hrun).
Defined.

(** ** Ingestion, on the sample dumps *)

Lemma definition_edge_witness :
  stored_in (on_samples loaded two_result_sets) 1 2 None
    (Plain 1 VertexLabels.resultSet) (Plain 2 VertexLabels.resultSet)
    EdgeLabels.textDocument_definition out_definition.
Proof.
  destruct (doProcessEdge_stores_target_in_own_map 1 2 None
              (on_samples loaded two_result_sets)
              (Plain 1 VertexLabels.resultSet) (Plain 2 VertexLabels.resultSet))
    as (_ & _ & _ & _ & _ & Hdefinition & _).
  - vm_compute. reflexivity.
  - vm_compute. reflexivity.
  - exact Hdefinition.
Defined.

Lemma contains_edge_witness :
  ∃ db', doProcessEdge EdgeLabels.contains 1 2 None
           (on_samples loaded two_result_sets) = Ret db'
         ∧ in_contains (in_ db') !! 2%Z = Some (Plain 1 VertexLabels.resultSet).
Proof.
  destruct (contains_edge_is_stored_both_ways 1 2 None
              (on_samples loaded two_result_sets)
              (Plain 1 VertexLabels.resultSet) (Plain 2 VertexLabels.resultSet))
    as (db' & Hrun & _ & Hin & _).
  - vm_compute. reflexivity.
  - vm_compute. reflexivity.
  - exists db'. split; [exact Hrun|exact Hin].
Defined.

Lemma moniker_edge_witness :
  ∃ db', doProcessEdge EdgeLabels.moniker 1 2 None
           (on_samples loaded two_result_sets) = Ret db'
         ∧ out_moniker (out db') !! 1%Z = Some (Plain 2 VertexLabels.resultSet).
Proof.
  destruct (moniker_edge_is_stored_both_ways 1 2 None
              (on_samples loaded two_result_sets)
              (Plain 1 VertexLabels.resultSet) (Plain 2 VertexLabels.resultSet))
    as (db' & Hrun & Hout & _).
  - vm_compute. reflexivity.
  - vm_compute. reflexivity.
  - exists db'. split; [exact Hrun|exact Hout].
Defined.

Lemma item_edge_witness :
  ∃ db', doProcessEdge EdgeLabels.item 1 2 (Some ItemEdgeProperties.references)
           (on_samples loaded two_result_sets) = Ret db'
         ∧ is_Some (out_item (out db') !! 1%Z).
Proof.
  pose proof (item_edge_appends_target 1 2 (Some ItemEdgeProperties.references)
                (on_samples loaded two_result_sets)
                (Plain 1 VertexLabels.resultSet) (Plain 2 VertexLabels.resultSet))
    as Hitem.
  simpl in Hitem. destruct Hitem as (db' & Hrun & Hout & _).
  - vm_compute. reflexivity.
  - vm_compute. reflexivity.
  - exists db'. split; [exact Hrun|]. by eexists.
Defined.

Lemma range_vertex_witness :
  vertices_all (vertices (on_samples loaded [vertex (Range 9 (at_ 0 0) (at_ 0 3))]))
    !! 9%Z
  = Some (Range 9 (at_ 0 0) (at_ 0 3)).
Proof.
  apply (processVertex_stores_vertex_under_its_id
           plain_digest plain_stringify plain_normalize
           (Range 9 (at_ 0 0) (at_ 0 3)) empty_database).
  vm_compute. reflexivity.
Defined.

Lemma symbol_dump_keyed_by_id : keyed_by_id (on_samples loaded symbol_dump).
Proof.
  apply (load_files_vertices_under_their_ids
           plain_digest plain_stringify plain_normalize symbol_dump).
  vm_compute. reflexivity.
Defined.

Lemma symbol_dump_moniker_index :
  moniker_index_ok plain_digest plain_stringify (on_samples loaded symbol_dump).
Proof.
  apply (load_indexes_monikers_by_key
           plain_digest plain_stringify plain_normalize symbol_dump).
  vm_compute. reflexivity.
Defined.

Lemma two_instance_dump_document_index :
  document_index_ok plain_digest plain_normalize
    (on_samples loaded two_instance_dump)
  ∧ instances (on_samples loaded two_instance_dump) "file:///a.ts"
    = [Document 1 "file:///a.ts" None; Document 2 "file:///a.ts" None].
Proof.
  destruct (load_indexes_documents_by_uri
              plain_digest plain_stringify plain_normalize two_instance_dump
              (on_samples loaded two_instance_dump))
    as [Hindex Hinstances]; [vm_compute; reflexivity|].
  split; [exact Hindex|]. rewrite Hinstances. vm_compute. reflexivity.
Defined.

Lemma second_workspace_root_witness :
  on_samples processVertex (MetaData 50 (Some "file:///other"))
    (on_samples loaded symbol_dump)
  = Throw MultipleWorkspaceRoots.
Proof.
  apply (second_workspace_root_is_refused
           plain_digest plain_stringify plain_normalize 50 "file:///").
  - vm_compute. reflexivity.
  - discriminate.
  - discriminate.
Defined.

Lemma workspace_root_witness :
  workspaceRoot (on_samples loaded (symbol_dump ++ two_instance_dump))
  = workspaceRoot (on_samples loaded symbol_dump).
Proof.
  apply (workspace_root_is_set_once
           plain_digest plain_stringify plain_normalize two_instance_dump).
  - vm_compute. reflexivity.
  - vm_compute. reflexivity.
Defined.

(** ** Queries, on the sample dumps *)

Lemma nested_range_position_witness :
  containsPosition {| start := at_ 0 5; end_ := at_ 0 20 |} (at_ 0 7) = true.
Proof.
  apply (containsRange_contains_the_positions
           {| start := at_ 0 5; end_ := at_ 0 20 |}
           {| start := at_ 0 6; end_ := at_ 0 15 |} (at_ 0 7)).
  - vm_compute. reflexivity.
  - vm_compute. reflexivity.
Defined.

Lemma overlap_dump_candidates_witness :
  Forall (contains_at (at_ 0 7)) [Range 2 (at_ 0 0) (at_ 0 10)].
Proof.
  apply Forall_forall.
  apply (findRangesFromPosition_returns_the_candidates
           (on_samples loaded overlap_dump) "file:///a.ts" (at_ 0 7)
           [Range 2 (at_ 0 0) (at_ 0 10)]).
  vm_compute. reflexivity.
Defined.

Lemma symbol_dump_result_path_witness :
  ∃ r, getResultPath (on_samples loaded symbol_dump) 10 3
         (out_definition (out (on_samples loaded symbol_dump))) = Ret r
       ∧ length r.(path) = 1
       ∧ trail_from (on_samples loaded symbol_dump)
           (out_definition (out (on_samples loaded symbol_dump))) 3 r.(path)
       ∧ ends_at (on_samples loaded symbol_dump)
           (out_definition (out (on_samples loaded symbol_dump))) 3
           r.(path) r.(result).
Proof.
  eexists. split; [vm_compute; reflexivity|]. split; [reflexivity|].
  apply (getResultPath_walks_the_next_chain
           (on_samples loaded symbol_dump) 10 3
           (out_definition (out (on_samples loaded symbol_dump)))).
  vm_compute. reflexivity.
Defined.

Lemma addLocation_twice_witness :
  ∃ s, on_samples addLocation (on_samples loaded symbol_dump)
         (Range 2 (at_ 0 0) (at_ 0 3)) initial_state = Ret s
       ∧ s.(locations) = [definition_site]
       ∧ on_samples addLocation (on_samples loaded symbol_dump)
           (Range 2 (at_ 0 0) (at_ 0 3)) s = Ret s.
Proof.
  eexists. split; [vm_compute; reflexivity|]. split; [reflexivity|].
  apply (addLocation_adds_a_vertex_once
           plain_digest plain_stringify plain_normalize
           (on_samples loaded symbol_dump) (Range 2 (at_ 0 0) (at_ 0 3))
           initial_state).
  vm_compute. reflexivity.
Defined.


Lemma local_moniker_witness :
  ∃ s, on_ranges expand_targets (on_samples loaded symbol_dump) 10
         (out_definition (out (on_samples loaded symbol_dump))) initial_state
         (Moniker 9 "scip" "local 1" (Some MonikerKind.local) None) = Ret s
       ∧ s.(locations) = [].
Proof.
  apply (proj1 (moniker_without_key_expands_to_nothing
                  plain_digest plain_stringify plain_normalize plain_range_is
                  (on_samples loaded symbol_dump) 10
                  (out_definition (out (on_samples loaded symbol_dump))) true
                  (Moniker 9 "scip" "local 1" (Some MonikerKind.local) None)
                  eq_refl)
           initial_state).
Defined.

Lemma unused_dump_witness :
  on_ranges unused_definitions (on_samples loaded unused_dump) 10 "file:///a.ts"
  = Ret [definition_site]
  ∧ ∃ found answers,
      on_ranges allDefinitions (on_samples loaded unused_dump) 10 "file:///a.ts"
      = Ret found
      ∧ Forall2 (λ definition answer,
                   on_samples references_of (on_samples loaded unused_dump) 10
                     definition = Ret answer)
          (default [] found) answers
      ∧ [definition_site] = omap sole_reference answers.
Proof.
  assert (on_ranges unused_definitions (on_samples loaded unused_dump) 10
            "file:///a.ts" = Ret [definition_site]) as Hrun
    by (vm_compute; reflexivity).
  split; [exact Hrun|].
  exact (unused_definitions_reports_sole_references
           plain_digest plain_stringify plain_normalize plain_range_is
           (on_samples loaded unused_dump) 10 "file:///a.ts"
           [definition_site] Hrun).
Defined.

Lemma symbol_dump_terminates_witness :
  on_ranges declarations (on_samples loaded symbol_dump) 3 "file:///a.ts"
    (at_ 1 1) ≠ OutOfFuel
  ∧ on_ranges definitions (on_samples loaded symbol_dump) 3 "file:///a.ts"
      (at_ 1 1) ≠ OutOfFuel
  ∧ on_ranges allDefinitions (on_samples loaded symbol_dump) 3 "file:///a.ts"
    ≠ OutOfFuel.
Proof.
  apply (definitions_terminate_on_acyclic_stores
           plain_digest plain_stringify plain_normalize plain_range_is
           (on_samples loaded symbol_dump) 3 "file:///a.ts" (at_ 1 1)).
  - apply acyclic_when_next_edges_do_not_chain.
    apply (bool_decide_unpack _). vm_compute. exact I.
  - vm_compute. lia.
Defined.

Lemma linked_dump_worklist_witness :
  ∃ st, on_samples moniker_loop (on_samples loaded linked_dump) 10 true 10 0
          {| query := initial_state;
             monikers := [Moniker 5 "scip" "pkg/foo." (Some MonikerKind.export)
                            (Some "s:scip;i:pkg/foo.;")] |}
        = Ret st
        ∧ length st.(monikers) = 2
        ∧ st.(query).(lookups)
          = [Some "s:scip;i:pkg/foo.;"; Some "s:scip;i:pkg/bar.;"]
        ∧ ∀ j moniker,
            0 ≤ j → st.(monikers) !! j = Some moniker →
            vertex_key moniker ∈ st.(query).(dedupMonikers).
Proof.
  eexists. split; [vm_compute; reflexivity|].
  split; [reflexivity|]. split; [reflexivity|].
  eapply (moniker_loop_reaches_pushed_monikers
            plain_digest plain_stringify plain_normalize
            (on_samples loaded linked_dump) 10 true 10 0
            {| query := initial_state;
               monikers := [Moniker 5 "scip" "pkg/foo." (Some MonikerKind.export)
                              (Some "s:scip;i:pkg/foo.;")] |}).
  vm_compute. reflexivity.
Defined.
